(** * Restaurant ordering system: a shallow embedding of [main.go]

    The program keeps two MongoDB collections of the database
    ["restaurant"]: [customers] and [menu].  A collection is modelled as
    the list of its documents in insertion order; [InsertOne] appends,
    [FindOne] returns the first document that matches the filter and
    [UpdateOne] rewrites the first document that matches the filter.
    Every filter of the program is an equality test on the field
    ["name"].

    Amounts are Go [float64] values, modelled by Rocq's primitive binary64
    floats (same format, same round-to-nearest-even operations).  The
    product [Price * float64(count)] and the addition to the running total
    are rounded separately, as the compiler does where it does not fuse
    them (amd64).

    Driver failures ([log.Fatal] after a failed connection or write) are
    outside the model: the collections are total, in-memory lists.

    Console output is a list of structured lines, one constructor per
    [fmt.Print*] call of the program. *)

From Stdlib Require Import Ascii String ZArith.
From Stdlib Require Import PrimFloat Uint63 SpecFloat FloatOps FloatAxioms.
From stdpp Require Import gmap strings list.

Set Warnings "-inexact-float,-clear-no-such-hyp".
Set Default Proof Using "Type".

Local Open Scope string_scope.
Local Open Scope list_scope.
Local Open Scope stdpp_scope.

(** ** Data model *)

Module Customer.
Record t : Type := mk {
  Name : string;
  Phone : string;
  OrderedItems : list string;
  TotalAmount : float
}.

Definition push_orderedItems (itemName : string) (c : t) : t :=
  mk (Name c) (Phone c) (OrderedItems c ++ [itemName]) (TotalAmount c).

Definition set_totalAmount (totalAmount : float) (c : t) : t :=
  mk (Name c) (Phone c) (OrderedItems c) totalAmount.
End Customer.

Module MenuItem.
Record t : Type := mk {
  Name : string;
  Price : float
}.
End MenuItem.

(** The field ["name"] that the program's filters test. *)
Class Document (A : Type) : Type := bson_name : A → string.

#[export] Instance customer_document : Document Customer.t := Customer.Name.
#[export] Instance menuItem_document : Document MenuItem.t := MenuItem.Name.

(** The database ["restaurant"]. *)
Record DB : Type := mkDB {
  customers : list Customer.t;
  menu : list MenuItem.t
}.

Definition empty_DB : DB := mkDB [] [].

(** ** The driver operations the program uses *)

Section collection.
Context {A : Type} `{Document A}.

(** [bson.D{{"name", n}}] *)
Definition by_name (n : string) (d : A) : bool := bool_decide (bson_name d = n).

Definition InsertOne (d : A) (coll : list A) : list A := coll ++ [d].

(** [None] is the driver's [ErrNoDocuments]. *)
Definition FindOne (filter : A → bool) (coll : list A) : option A :=
  List.find filter coll.

(** The second component is [result.MatchedCount]. *)
Fixpoint UpdateOne (filter : A → bool) (update : A → A) (coll : list A)
    : list A * nat :=
  match coll with
  | [] => ([], 0)
  | d :: rest =>
      if filter d then (update d :: rest, 1)
      else let '(rest', matched) := UpdateOne filter update rest in
           (d :: rest', matched)
  end.
End collection.

(** ** Console output *)

Inductive Line : Type :=
| Connected_to_MongoDB
| Customer_added (name : string)
| Menu_items_added
| Menu_header
| Menu_line (menuItem : MenuItem.t)
| Item_not_found_in_menu (itemName : string)
| Customer_ordered_item (customerName itemName : string)
| No_customer_found_with_name (customerName : string)
| Enter_the_name_of_the_item
| Customer_not_found
| Thank_you (customerName : string)
| Welcome
| Total_customers
| Customer_line (customer : Customer.t).

(** [ConnectDB] when the connection is made: it prints one line.  A
    connection that fails ends the process. *)
Definition ConnectDB : list Line := [Connected_to_MongoDB].

(** ** Catalog *)

Definition AddCustomer (name phone : string) (db : DB) : DB * list Line :=
  let customer := Customer.mk name phone [] 0%float in
  (mkDB (InsertOne customer (customers db)) (menu db), [Customer_added name]).

Definition menuItems : list MenuItem.t :=
  [ MenuItem.mk "Pizza" 829.17;
    MenuItem.mk "Burger" 497.17;
    MenuItem.mk "Pasta" 663.17;
    MenuItem.mk "Salad" 414.17;
    MenuItem.mk "Sushi" 1078.17;
    MenuItem.mk "Sandwich" 331.17;
    MenuItem.mk "Tacos" 580.17;
    MenuItem.mk "Steak" 1327.17;
    MenuItem.mk "Fries" 248.17;
    MenuItem.mk "Ice Cream" 290.50 ]%float.

Definition AddMenuItems (db : DB) : DB * list Line :=
  (mkDB (customers db)
        (fold_left (λ collection item, InsertOne item collection) menuItems (menu db)),
   [Menu_items_added]).

Definition ShowMenu (db : DB) : list Line :=
  Menu_header :: map Menu_line (menu db).

(** ** Ledger *)

Definition OrderItem (customerName itemName : string) (db : DB) : DB * list Line :=
  match FindOne (by_name itemName) (menu db) with
  | None => (db, [Item_not_found_in_menu itemName])
  | Some _ =>
      let '(customers', MatchedCount) :=
        UpdateOne (by_name customerName) (Customer.push_orderedItems itemName)
                  (customers db) in
      (mkDB customers' (menu db),
       [if bool_decide (0 < MatchedCount)%nat
        then Customer_ordered_item customerName itemName
        else No_customer_found_with_name customerName])
  end.

(** [float64(count)] for a Go [int] that counts list elements.  The
    conversion goes through the 63-bit machine integers; it is the exact
    conversion for every count below [2^63], which no slice exceeds. *)
Definition float64 (count : nat) : float :=
  of_uint63 (Uint63.of_Z (Z.of_nat count)).

(** [itemCounts[itemName]++] over the ordered items; an absent key reads
    as Go's zero value. *)
Definition itemCounts (orderedItems : list string) : gmap string nat :=
  fold_left (λ counts itemName, <[itemName := S (default 0 (counts !! itemName))]> counts)
            orderedItems ∅.

(** Go leaves the iteration order of [range itemCounts] unspecified, and
    the runtime changes it from one loop to the next.  The order in which
    one execution of the loop yields the keys is the list [ks]; it yields
    every key of the map exactly once. *)
Definition key_order (counts : gmap string nat) (ks : list string) : Prop :=
  NoDup ks ∧ ∀ k, k ∈ ks ↔ is_Some (counts !! k).

(** The loop [for itemName, count := range itemCounts] run in the key
    order [ks], from [var totalAmount float64]. *)
Definition sum_range (menuCollection : list MenuItem.t)
    (counts : gmap string nat) (ks : list string) : float :=
  fold_left
    (λ totalAmount itemName,
       match counts !! itemName with
       | Some count =>
           match FindOne (by_name itemName) menuCollection with
           | Some menuItem => (totalAmount + MenuItem.Price menuItem * float64 count)%float
           | None => totalAmount
           end
       | None => totalAmount
       end)
    ks 0%float.

(** One execution of [CalculateAndStoreTotal] whose [range] loop yields
    the keys in the order [ks]. *)
Definition CalculateAndStoreTotal_in (ks : list string) (customerName : string)
    (db : DB) : DB * list Line :=
  match FindOne (by_name customerName) (customers db) with
  | None => (db, [Customer_not_found])
  | Some customer =>
      let totalAmount :=
        sum_range (menu db) (itemCounts (Customer.OrderedItems customer)) ks in
      let '(customers', _) :=
        UpdateOne (by_name customerName) (Customer.set_totalAmount totalAmount)
                  (customers db) in
      (mkDB customers' (menu db), [Thank_you customerName])
  end.

(** [CalculateAndStoreTotal customerName db r]: [r] is the database and
    the output that some execution of the function reaches from [db]. *)
Definition CalculateAndStoreTotal (customerName : string) (db : DB)
    (r : DB * list Line) : Prop :=
  ∃ ks,
    (∀ customer,
        FindOne (by_name customerName) (customers db) = Some customer →
        key_order (itemCounts (Customer.OrderedItems customer)) ks) ∧
    r = CalculateAndStoreTotal_in ks customerName db.

(** ** Console workflow *)

(** A Go string is a sequence of bytes, here a [string] of 8-bit
    characters; text is UTF-8.

    [strings.TrimSpace] removes the leading and the trailing white-space
    runes, "as defined by Unicode": it decodes one rune at a time from the
    left, then from the right, and stops at the first rune that
    [unicode.IsSpace] rejects.  [White_Space] is the table of
    [unicode.IsSpace] and [utf8] the encoding of a code point.  A string
    begins (ends) with a white-space rune exactly when it begins (ends)
    with the bytes of one of the [space_runes]: the first byte of an
    encoding is never a continuation byte and the others always are, so
    the decoder reads just these bytes in both directions, and it reads
    bytes that are not valid UTF-8 as the error rune, which is not white
    space. *)
Definition White_Space : list N :=
  [0x09; 0x0A; 0x0B; 0x0C; 0x0D; 0x20; 0x85; 0xA0; 0x1680;
   0x2000; 0x2001; 0x2002; 0x2003; 0x2004; 0x2005; 0x2006; 0x2007; 0x2008;
   0x2009; 0x200A; 0x2028; 0x2029; 0x202F; 0x205F; 0x3000]%N.

Definition utf8 (r : N) : string :=
  (if r <? 0x80 then
     String (ascii_of_N r) EmptyString
   else if r <? 0x800 then
     String (ascii_of_N (0xC0 + r / 0x40))
       (String (ascii_of_N (0x80 + r mod 0x40)) EmptyString)
   else if r <? 0x10000 then
     String (ascii_of_N (0xE0 + r / 0x1000))
       (String (ascii_of_N (0x80 + (r / 0x40) mod 0x40))
          (String (ascii_of_N (0x80 + r mod 0x40)) EmptyString))
   else
     String (ascii_of_N (0xF0 + r / 0x40000))
       (String (ascii_of_N (0x80 + (r / 0x1000) mod 0x40))
          (String (ascii_of_N (0x80 + (r / 0x40) mod 0x40))
             (String (ascii_of_N (0x80 + r mod 0x40)) EmptyString))))%N.

Definition space_runes : list string :=
  Eval vm_compute in utf8 <$> White_Space.

(** The bytes [s] are one white-space rune. *)
Definition is_space_rune (s : string) : bool := bool_decide (s ∈ space_runes).

(** A white-space rune has one, two or three bytes. *)
Fixpoint TrimLeft (s : string) : string :=
  match s with
  | EmptyString => EmptyString
  | String c1 s1 =>
      if is_space_rune (String c1 EmptyString) then TrimLeft s1
      else match s1 with
           | EmptyString => s
           | String c2 s2 =>
               if is_space_rune (String c1 (String c2 EmptyString)) then TrimLeft s2
               else match s2 with
                    | EmptyString => s
                    | String c3 s3 =>
                        if is_space_rune
                             (String c1 (String c2 (String c3 EmptyString)))
                        then TrimLeft s3
                        else s
                    end
           end
  end.

(** From the right: what is kept of [String c rest] is [c] and what is
    kept of [rest], unless these bytes are one white-space rune. *)
Fixpoint TrimRight (s : string) : string :=
  match s with
  | EmptyString => EmptyString
  | String c rest =>
      let kept := String c (TrimRight rest) in
      if is_space_rune kept then EmptyString else kept
  end.

Definition TrimSpace (s : string) : string := TrimRight (TrimLeft s).

(** [strings.ToLower], used by the program only in the comparison with
    "done": the letters [A]-[Z] are lowered and every other byte is kept.
    [strings.ToLower] lowers the letters outside ASCII too; none of them
    becomes [d], [o], [n] or [e], so the comparison is the same. *)
Definition toLower (c : ascii) : ascii :=
  let n := nat_of_ascii c in
  if bool_decide (65 ≤ n ≤ 90)%nat then ascii_of_nat (n + 32) else c.

Fixpoint ToLower (s : string) : string :=
  match s with
  | EmptyString => EmptyString
  | String c rest => String (toLower c) (ToLower rest)
  end.

(** The test [strings.ToLower(itemName) == "done"] on a line as read. *)
Definition is_done (line : string) : bool :=
  bool_decide (ToLower (TrimSpace line) = "done").

(** [PlaceOrder customerName input db r]: the loop, reading the lines
    [input] one per iteration (each as [reader.ReadString] returns it),
    ends in [r].  When the input runs out before a line says "done" the
    loop never ends, and the relation has no result. *)
Inductive PlaceOrder (customerName : string)
    : list string → DB → DB * list Line → Prop :=
| PlaceOrder_break line input db r :
    is_done line = true →
    CalculateAndStoreTotal customerName db r →
    PlaceOrder customerName (line :: input) db
      (r.1, ShowMenu db ++ Enter_the_name_of_the_item :: r.2)
| PlaceOrder_order line input db r :
    is_done line = false →
    PlaceOrder customerName input (OrderItem customerName (TrimSpace line) db).1 r →
    PlaceOrder customerName (line :: input) db
      (r.1, ShowMenu db ++ Enter_the_name_of_the_item ::
              (OrderItem customerName (TrimSpace line) db).2 ++ r.2).

Definition GetCustomers (db : DB) : list Line :=
  Total_customers :: map Customer_line (customers db).

(** The body of [main], for the customer it registers. *)
Inductive main_for (name phone : string) (input : list string) (db : DB)
    : DB * list Line → Prop :=
| main_for_run r :
    PlaceOrder name input (AddCustomer name phone (AddMenuItems db).1).1 r →
    main_for name phone input db
      (r.1, ConnectDB ++ (AddMenuItems db).2 ++
              (AddCustomer name phone (AddMenuItems db).1).2
              ++ Welcome :: r.2 ++ GetCustomers r.1).

Definition main : list string → DB → DB * list Line → Prop :=
  main_for "Gadapa Raghavendra" "1234567890".

(** ** The total as the specification words it *)

(** Number of occurrences of [n] in the ordered items. *)
Definition occurrences (n : string) (orderedItems : list string) : nat :=
  length (filter (λ x, x = n) orderedItems).

(** Price of [n] in the menu: that of the record a lookup by name finds. *)
Definition price (menuCollection : list MenuItem.t) (n : string) : option float :=
  MenuItem.Price <$> FindOne (by_name n) menuCollection.

(** Sum over the names [names], taken in that order, of price times
    number of occurrences; a name without a menu record adds nothing. *)
Definition order_total (menuCollection : list MenuItem.t)
    (orderedItems names : list string) : float :=
  fold_left
    (λ acc n,
       match price menuCollection n with
       | Some p => (acc + p * float64 (occurrences n orderedItems))%float
       | None => acc
       end)
    names 0%float.

(** [names] lists the distinct item names of [orderedItems]. *)
Definition distinct_names (orderedItems names : list string) : Prop :=
  NoDup names ∧ ∀ n, n ∈ names ↔ n ∈ orderedItems.

(** [c] is the record of [coll] that a lookup by [name] finds: the first
    one of that name; [pre] and [post] are the records around it. *)
Definition first_named (name : string) (coll pre : list Customer.t)
    (c : Customer.t) (post : list Customer.t) : Prop :=
  coll = pre ++ c :: post ∧
  Forall (λ d, Customer.Name d ≠ name) pre ∧
  Customer.Name c = name.

Definition LF : string := String (ascii_of_nat 10) EmptyString.
Definition CR : string := String (ascii_of_nat 13) EmptyString.

(** ** White space around a line *)

(** A string made of white-space runes only. *)
Inductive white_space : string → Prop :=
| white_space_nil : white_space EmptyString
| white_space_rune e s :
    e ∈ space_runes → white_space s → white_space (String.append e s).

Definition starts_with_space (s : string) : Prop :=
  ∃ e rest, e ∈ space_runes ∧ s = String.append e rest.

Definition ends_with_space (s : string) : Prop :=
  ∃ rest e, e ∈ space_runes ∧ s = String.append rest e.

(** No white space at either end. *)
Definition trimmed (s : string) : Prop :=
  ¬ starts_with_space s ∧ ¬ ends_with_space s.

(** The word "done" with each letter in either case. *)
Definition done_in_any_case (s : string) : Prop :=
  ∃ c1 c2 c3 c4,
    s = String c1 (String c2 (String c3 (String c4 EmptyString))) ∧
    (c1 = "d" ∨ c1 = "D")%char ∧ (c2 = "o" ∨ c2 = "O")%char ∧
    (c3 = "n" ∨ c3 = "N")%char ∧ (c4 = "e" ∨ c4 = "E")%char.

(** A continuation byte of UTF-8. *)
Definition is_cont (c : ascii) : bool :=
  bool_decide (128 ≤ nat_of_ascii c < 192)%nat.

Fixpoint all_cont (s : string) : bool :=
  match s with
  | EmptyString => true
  | String c rest => is_cont c && all_cont rest
  end.

(** The no-break space and the em space, as bytes. *)
Definition NBSP : string := Eval vm_compute in utf8 0xA0.
Definition EM_SPACE : string := Eval vm_compute in utf8 0x2003.

(** White space before and after a line, used below. *)
Definition blank_before : string :=
  String.append " " (String.append NBSP EmptyString).
Definition blank_after : string :=
  String.append EM_SPACE (String.append CR (String.append LF EmptyString)).

(** A store with one customer who has no orders and a total left over. *)
Definition no_orders_DB : DB :=
  mkDB [Customer.mk "Ana" "5550100" [] 7%float] menuItems.

(** ** The stores the program works on *)

(** A store in which no two customer records share a name (the empty
    store is one), and every store that the operations of the program lead
    to from there, in any number and order. *)
Inductive reachable : DB → Prop :=
| reachable_unique_names db :
    NoDup (Customer.Name <$> customers db) → reachable db
| reachable_AddMenuItems db :
    reachable db → reachable (AddMenuItems db).1
| reachable_AddCustomer name phone db :
    reachable db → reachable (AddCustomer name phone db).1
| reachable_OrderItem customerName itemName db :
    reachable db → reachable (OrderItem customerName itemName db).1
| reachable_CalculateAndStoreTotal customerName db r :
    reachable db → CalculateAndStoreTotal customerName db r → reachable r.1.

(** A record that comes after another record of the same name is never
    found by a lookup; [shadowed_fresh] says that every such record is as
    [AddCustomer] inserted it. *)
Definition shadowed_fresh (coll : list Customer.t) : Prop :=
  ∀ i j c d,
    (i < j)%nat → coll !! i = Some c → coll !! j = Some d →
    Customer.Name c = Customer.Name d →
    Customer.OrderedItems d = [] ∧ Customer.TotalAmount d = 0%float.

(** ** Two sessions used below *)

(** The database after the menu is seeded, one customer is registered and
    orders a pizza, a burger and a pasta. *)
Definition three_orders_DB : DB :=
  let db0 := (AddCustomer "Ana" "5550100" (AddMenuItems empty_DB).1).1 in
  (OrderItem "Ana" "Pasta" (OrderItem "Ana" "Burger" (OrderItem "Ana" "Pizza" db0).1).1).1.

Definition three_orders_customer : Customer.t :=
  Customer.mk "Ana" "5550100" ["Pizza"; "Burger"; "Pasta"] 0%float.

(** The lines typed in the end-to-end scenario, as [ReadString] returns
    them. *)
Definition scenario_input : list string :=
  [String.append "Pizza" LF; String.append "Pizza" LF;
   String.append "Burger" LF; String.append "done" LF].

(** ** What a session amounts to *)

(** The item names that a session with the lines [input] orders from the
    menu [menuCollection]: the trimmed lines before the first "done" that
    name a menu record, in the order typed. *)
Fixpoint accepted_orders (menuCollection : list MenuItem.t) (input : list string)
    : list string :=
  match input with
  | [] => []
  | line :: rest =>
      if is_done line then []
      else match FindOne (by_name (TrimSpace line)) menuCollection with
           | Some _ => TrimSpace line :: accepted_orders menuCollection rest
           | None => accepted_orders menuCollection rest
           end
  end.

(** The lines a session prints up to and including its closing line, for
    a customer that is registered or not: the menu and the prompt before
    every line read, one report per order, and the closing line. *)
Fixpoint session_lines (menuCollection : list MenuItem.t) (customerName : string)
    (registered : bool) (input : list string) : list Line :=
  match input with
  | [] => []
  | line :: rest =>
      (Menu_header :: map Menu_line menuCollection) ++
      Enter_the_name_of_the_item ::
      if is_done line
      then [if registered then Thank_you customerName else Customer_not_found]
      else (match FindOne (by_name (TrimSpace line)) menuCollection with
            | None => Item_not_found_in_menu (TrimSpace line)
            | Some _ =>
                if registered
                then Customer_ordered_item customerName (TrimSpace line)
                else No_customer_found_with_name customerName
            end) :: session_lines menuCollection customerName registered rest
  end.

(** Every ordered item of every customer names a menu record. *)
Definition orders_in_menu (db : DB) : Prop :=
  ∀ c n, c ∈ customers db → n ∈ Customer.OrderedItems c →
         ∃ m, m ∈ menu db ∧ MenuItem.Name m = n.

(** The collection [coll'] keeps every record of [coll] at its place,
    with its name and phone, and with ordered items that extend those it
    had. *)
Definition records_kept (coll coll' : list Customer.t) : Prop :=
  ∀ i c, coll !! i = Some c →
    ∃ c', coll' !! i = Some c' ∧
          Customer.Name c' = Customer.Name c ∧
          Customer.Phone c' = Customer.Phone c ∧
          Customer.OrderedItems c `prefix_of` Customer.OrderedItems c'.

(** [db'] keeps what [db] holds: the menu of [db] is the beginning of
    that of [db'], and the customer records are kept. *)
Definition keeps (db db' : DB) : Prop :=
  menu db `prefix_of` menu db' ∧ records_kept (customers db) (customers db').

(** * Properties *)

(** ** The driver operations *)

Section collection_facts.
Context {A : Type} `{Document A}.
Implicit Types (coll pre post : list A) (d : A) (n : string).

Lemma FindOne_None n coll :
  FindOne (by_name n) coll = None ↔ Forall (λ d, bson_name d ≠ n) coll.
Proof.
  unfold FindOne, by_name. induction coll as [|d coll IH]; simpl.
  - split; [constructor | done].
  - case_bool_decide as Hd.
    + split; [done | intros Hall; by inversion Hall].
    + rewrite IH. split; [by constructor | intros Hall; by inversion Hall].
Qed.

Lemma FindOne_Some n coll d :
  FindOne (by_name n) coll = Some d →
  ∃ pre post, coll = pre ++ d :: post ∧
              Forall (λ d', bson_name d' ≠ n) pre ∧ bson_name d = n.
Proof.
  unfold FindOne, by_name. induction coll as [|d' coll IH]; simpl; [done|].
  case_bool_decide as Hd.
  - intros [= ->]. by exists [], coll.
  - intros (pre & post & -> & Hpre & Hn)%IH.
    exists (d' :: pre), post. split_and!; [done | by constructor | done].
Qed.

Lemma FindOne_first n pre d post :
  Forall (λ d', bson_name d' ≠ n) pre → bson_name d = n →
  FindOne (by_name n) (pre ++ d :: post) = Some d.
Proof.
  unfold FindOne, by_name. intros Hpre Hd.
  induction Hpre as [|d' pre Hd' _ IH]; simpl.
  - by rewrite bool_decide_eq_true_2.
  - by rewrite bool_decide_eq_false_2.
Qed.

Lemma FindOne_elem_of n coll d :
  d ∈ coll → bson_name d = n → is_Some (FindOne (by_name n) coll).
Proof.
  intros Hin Hd. destruct (FindOne (by_name n) coll) eqn:Hfind; [done|].
  apply FindOne_None in Hfind. rewrite Forall_forall in Hfind.
  by destruct (Hfind d Hin).
Qed.

Lemma UpdateOne_none n (update : A → A) coll :
  Forall (λ d, bson_name d ≠ n) coll →
  UpdateOne (by_name n) update coll = (coll, 0).
Proof.
  unfold by_name. induction 1 as [|d coll Hd _ IH]; simpl; [done|].
  by rewrite bool_decide_eq_false_2, IH.
Qed.

Lemma UpdateOne_first n (update : A → A) pre d post :
  Forall (λ d', bson_name d' ≠ n) pre → bson_name d = n →
  UpdateOne (by_name n) update (pre ++ d :: post) = (pre ++ update d :: post, 1).
Proof.
  unfold by_name. intros Hpre Hd.
  induction Hpre as [|d' pre Hd' _ IH]; simpl.
  - by rewrite bool_decide_eq_true_2.
  - by rewrite bool_decide_eq_false_2, IH.
Qed.
End collection_facts.

Lemma DB_eta db : mkDB (customers db) (menu db) = db.
Proof. by destruct db. Qed.

Lemma first_named_FindOne name coll c :
  FindOne (by_name name) coll = Some c → ∃ pre post, first_named name coll pre c post.
Proof.
  intros (pre & post & ? & ? & ?)%(FindOne_Some (H:=customer_document)).
  by exists pre, post.
Qed.

Lemma menu_FindOne itemName (menuCollection : list MenuItem.t) menuItem :
  menuItem ∈ menuCollection → MenuItem.Name menuItem = itemName →
  ∃ found, FindOne (by_name itemName) menuCollection = Some found.
Proof. intros Hin Hname. by apply (FindOne_elem_of (H:=menuItem_document) _ _ menuItem). Qed.

Lemma customers_FindOne customerName (coll : list Customer.t) customer :
  customer ∈ coll → Customer.Name customer = customerName →
  ∃ found, FindOne (by_name customerName) coll = Some found.
Proof. intros Hin Hname. by apply (FindOne_elem_of (H:=customer_document) _ _ customer). Qed.

(** ** Ordering an item *)

Lemma OrderItem_not_in_menu customerName itemName db :
  Forall (λ m, MenuItem.Name m ≠ itemName) (menu db) →
  OrderItem customerName itemName db = (db, [Item_not_found_in_menu itemName]).
Proof.
  intros Hmenu. unfold OrderItem.
  by rewrite (proj2 (FindOne_None (H:=menuItem_document) itemName (menu db)) Hmenu).
Qed.

(** C3: when [itemName] matches no menu record, [OrderItem] leaves the
    whole database as it is (every customer record, in particular the
    ordered items and the total of the named customer, and every menu
    record) and prints only that the item was not found. *)
Theorem OrderItem_unknown_item customerName itemName db :
  Forall (λ m, MenuItem.Name m ≠ itemName) (menu db) →
  OrderItem customerName itemName db = (db, [Item_not_found_in_menu itemName]).
Proof. apply OrderItem_not_in_menu. Qed.

(** C4: when [itemName] is in the menu and no customer record is named
    [customerName], [OrderItem] changes no record and prints that no
    customer was found. *)
Theorem OrderItem_unknown_customer customerName itemName db menuItem :
  menuItem ∈ menu db → MenuItem.Name menuItem = itemName →
  Forall (λ c, Customer.Name c ≠ customerName) (customers db) →
  OrderItem customerName itemName db = (db, [No_customer_found_with_name customerName]).
Proof.
  intros Hin Hname Hcust. unfold OrderItem.
  destruct (menu_FindOne itemName (menu db) menuItem Hin Hname) as [found ->].
  rewrite (UpdateOne_none (H:=customer_document) customerName _ (customers db) Hcust).
  simpl.
  by rewrite DB_eta.
Qed.

(** C7: when [itemName] is in the menu and some customer record is named
    [customerName], [OrderItem] appends [itemName] at the end of the
    ordered items of the first record of that name; the name, phone and
    total of that record, all other customer records and the menu are as
    before, and the order is acknowledged. *)
Theorem OrderItem_appends customerName itemName db menuItem customer :
  menuItem ∈ menu db → MenuItem.Name menuItem = itemName →
  customer ∈ customers db → Customer.Name customer = customerName →
  ∃ pre c post,
    first_named customerName (customers db) pre c post ∧
    OrderItem customerName itemName db =
      (mkDB (pre ++ Customer.mk (Customer.Name c) (Customer.Phone c)
                                (Customer.OrderedItems c ++ [itemName])
                                (Customer.TotalAmount c) :: post)
            (menu db),
       [Customer_ordered_item customerName itemName]).
Proof.
  intros Hin Hname Hcin Hcname. unfold OrderItem.
  destruct (menu_FindOne itemName (menu db) menuItem Hin Hname) as [found ->].
  destruct (customers_FindOne customerName (customers db) customer Hcin Hcname)
    as [c Hc].
  destruct (first_named_FindOne _ _ _ Hc) as (pre & post & Hsplit & Hpre & Hn).
  exists pre, c, post. split; [done|].
  rewrite Hsplit.
  by rewrite (UpdateOne_first (H:=customer_document) customerName _ pre c post Hpre Hn).
Qed.

(** C10: the menu is consulted first.  When [itemName] matches no menu
    record the only line printed is the item-not-found one, the
    no-customer line is not printed even when no customer record is named
    [customerName], and the outcome is the same whatever the customers
    collection holds: it is not looked at. *)
Theorem OrderItem_item_checked_first customerName itemName db :
  Forall (λ m, MenuItem.Name m ≠ itemName) (menu db) →
  (OrderItem customerName itemName db).2 = [Item_not_found_in_menu itemName] ∧
  (No_customer_found_with_name customerName ∉ (OrderItem customerName itemName db).2) ∧
  ∀ anyCustomers,
    OrderItem customerName itemName (mkDB anyCustomers (menu db)) =
      (mkDB anyCustomers (menu db), [Item_not_found_in_menu itemName]).
Proof.
  intros Hmenu. split_and!.
  - by rewrite OrderItem_not_in_menu.
  - rewrite OrderItem_not_in_menu by done. simpl.
    intros Hin. apply list_elem_of_singleton in Hin. discriminate Hin.
  - intros anyCustomers. by apply OrderItem_not_in_menu.
Qed.

(** ** Counting the ordered items *)

Lemma occurrences_cons n x orderedItems :
  occurrences n (x :: orderedItems) =
  if decide (x = n) then S (occurrences n orderedItems) else occurrences n orderedItems.
Proof. unfold occurrences. rewrite filter_cons. by case_decide. Qed.

Lemma occurrences_0 n orderedItems :
  occurrences n orderedItems = 0 ↔ n ∉ orderedItems.
Proof.
  induction orderedItems as [|x l IH].
  - split; [intros _; apply not_elem_of_nil | done].
  - rewrite occurrences_cons, not_elem_of_cons. case_decide; subst.
    + split; [done | by intros []].
    + rewrite IH. split; [by intros ? | by intros [_ ?]].
Qed.

Lemma counting_lookup (orderedItems : list string) (counts : gmap string nat) n :
  fold_left (λ counts itemName, <[itemName := S (default 0 (counts !! itemName))]> counts)
            orderedItems counts !! n =
  if decide (occurrences n orderedItems = 0) then counts !! n
  else Some (occurrences n orderedItems + default 0 (counts !! n)).
Proof.
  revert counts. induction orderedItems as [|x l IH]; intros counts; simpl; [done|].
  rewrite IH, occurrences_cons. destruct (decide (x = n)) as [->|Hne].
  - rewrite lookup_insert_eq. simpl. repeat case_decide; try lia; f_equal; lia.
  - by rewrite lookup_insert_ne.
Qed.

(** The map built by the counting loop holds, for every name that occurs,
    its number of occurrences, and nothing else. *)
Lemma itemCounts_lookup orderedItems n :
  itemCounts orderedItems !! n =
  if decide (n ∈ orderedItems) then Some (occurrences n orderedItems) else None.
Proof.
  unfold itemCounts. rewrite counting_lookup, lookup_empty. simpl.
  pose proof (occurrences_0 n orderedItems).
  repeat case_decide; try tauto; f_equal; lia.
Qed.

Lemma key_order_distinct_names orderedItems ks :
  key_order (itemCounts orderedItems) ks ↔ distinct_names orderedItems ks.
Proof.
  unfold key_order, distinct_names.
  enough (∀ k, is_Some (itemCounts orderedItems !! k) ↔ k ∈ orderedItems) as Hkeys.
  { split; intros [Hnodup Hks]; (split; [done|]); intros k;
      rewrite Hks; [apply Hkeys | symmetry; apply Hkeys]. }
  intros k. rewrite itemCounts_lookup. case_decide.
  - split; [done | by eexists].
  - split; [by intros [? ?] | done].
Qed.

Lemma key_order_exists (counts : gmap string nat) : ∃ ks, key_order counts ks.
Proof.
  exists (elements (dom counts)). split; [apply NoDup_elements|].
  intros k. by rewrite elem_of_elements, elem_of_dom.
Qed.

Lemma fold_left_agree {A B : Type} (f g : A → B → A) (l : list B) (a : A) :
  (∀ a' x, x ∈ l → f a' x = g a' x) → fold_left f l a = fold_left g l a.
Proof.
  revert a. induction l as [|x l IH]; intros a Hfg; simpl; [done|].
  rewrite (Hfg a x) by constructor.
  apply IH. intros a' y Hy. apply Hfg. by constructor.
Qed.

(** The loop over the map adds, in the order the keys come, what the
    specification's sum adds. *)
Lemma sum_range_order_total menuCollection orderedItems ks :
  (∀ k, k ∈ ks → k ∈ orderedItems) →
  sum_range menuCollection (itemCounts orderedItems) ks =
  order_total menuCollection orderedItems ks.
Proof.
  intros Hks. unfold sum_range, order_total. apply fold_left_agree.
  intros acc k Hk. rewrite itemCounts_lookup, decide_True by auto.
  unfold price. by destruct (FindOne (by_name k) menuCollection).
Qed.

(** ** Computing and storing the total *)

(** The function returns, whatever the database. *)
Lemma CalculateAndStoreTotal_total customerName db :
  ∃ r, CalculateAndStoreTotal customerName db r.
Proof.
  unfold CalculateAndStoreTotal.
  destruct (FindOne (by_name customerName) (customers db)) as [c|] eqn:Hfind.
  - destruct (key_order_exists (itemCounts (Customer.OrderedItems c))) as [ks Hks].
    exists (CalculateAndStoreTotal_in ks customerName db), ks.
    split; [|done]. by intros ? [= <-].
  - exists (CalculateAndStoreTotal_in [] customerName db), [].
    split; [|done]. by intros ? [=].
Qed.

(** What one execution does when the lookup finds [c]. *)
Lemma CalculateAndStoreTotal_found customerName db c r :
  FindOne (by_name customerName) (customers db) = Some c →
  CalculateAndStoreTotal customerName db r →
  ∃ names pre post,
    distinct_names (Customer.OrderedItems c) names ∧
    first_named customerName (customers db) pre c post ∧
    r = (mkDB (pre ++ Customer.mk (Customer.Name c) (Customer.Phone c)
                        (Customer.OrderedItems c)
                        (order_total (menu db) (Customer.OrderedItems c) names)
                   :: post)
              (menu db),
         [Thank_you customerName]).
Proof.
  intros Hfind (ks & Hks & ->).
  specialize (Hks c Hfind). apply key_order_distinct_names in Hks.
  destruct (first_named_FindOne _ _ _ Hfind) as (pre & post & Hsplit & Hpre & Hn).
  exists ks, pre, post. split_and!; [done | done |].
  unfold CalculateAndStoreTotal_in. rewrite Hfind, Hsplit.
  rewrite (UpdateOne_first (H:=customer_document) customerName _ pre c post Hpre Hn).
  rewrite sum_range_order_total by (intros k; apply Hks). done.
Qed.

Lemma CalculateAndStoreTotal_in_first ks customerName coll menuCollection pre c post :
  first_named customerName coll pre c post →
  CalculateAndStoreTotal_in ks customerName (mkDB coll menuCollection) =
    (mkDB (pre ++ Customer.mk (Customer.Name c) (Customer.Phone c)
                    (Customer.OrderedItems c)
                    (sum_range menuCollection (itemCounts (Customer.OrderedItems c)) ks)
               :: post)
          menuCollection,
     [Thank_you customerName]).
Proof.
  intros (Hsplit & Hpre & Hn). unfold CalculateAndStoreTotal_in. simpl.
  rewrite Hsplit.
  rewrite (FindOne_first (H:=customer_document) customerName pre c post Hpre Hn).
  by rewrite (UpdateOne_first (H:=customer_document) customerName _ pre c post Hpre Hn).
Qed.

(** ** Records that share a name *)

Lemma first_named_insert name coll pre c post (f : Customer.t → Customer.t) :
  first_named name coll pre c post →
  pre ++ f c :: post = <[length pre := f c]> coll.
Proof.
  intros (-> & _ & _). rewrite insert_app_r_alt by lia.
  by rewrite Nat.sub_diag.
Qed.

Lemma first_named_lookup name coll pre c post :
  first_named name coll pre c post → coll !! length pre = Some c.
Proof. intros (-> & _ & _). apply list_lookup_middle. done. Qed.

Lemma first_named_least name coll pre c post i d :
  first_named name coll pre c post →
  coll !! i = Some d → Customer.Name d = name → (length pre ≤ i)%nat.
Proof.
  intros (-> & Hpre & _) Hi Hd.
  destruct (decide (length pre ≤ i)%nat) as [|Hlt]; [done|]. exfalso.
  rewrite lookup_app_l in Hi by lia.
  rewrite Forall_forall in Hpre. apply (Hpre d); [|done].
  by apply list_elem_of_lookup_2 in Hi.
Qed.

Lemma first_named_or_none name (coll : list Customer.t) :
  Forall (λ c, Customer.Name c ≠ name) coll ∨
  ∃ pre c post, first_named name coll pre c post.
Proof.
  destruct (FindOne (by_name name) coll) as [c|] eqn:Hfind.
  - right. destruct (first_named_FindOne _ _ _ Hfind) as (pre & post & ?).
    by exists pre, c, post.
  - left. by apply (FindOne_None (H:=customer_document)).
Qed.

Lemma shadowed_fresh_NoDup coll :
  NoDup (Customer.Name <$> coll) → shadowed_fresh coll.
Proof.
  intros Hnodup i j c d Hij Hi Hj Hname. exfalso.
  assert (i = j); [|lia].
  apply (NoDup_lookup _ i j (Customer.Name c) Hnodup);
    rewrite list_lookup_fmap; [by rewrite Hi | by rewrite Hj, Hname].
Qed.

Lemma shadowed_fresh_InsertOne coll name phone :
  shadowed_fresh coll →
  shadowed_fresh (InsertOne (Customer.mk name phone [] 0%float) coll).
Proof.
  unfold InsertOne. intros Hinv i j c d Hij Hi Hj Hname.
  destruct (decide (j < length coll)%nat) as [Hj'|Hj'].
  - rewrite lookup_app_l in Hi, Hj by lia. by apply (Hinv i j c d).
  - rewrite lookup_app_r in Hj by lia.
    destruct (j - length coll) as [|k]; simpl in Hj; [|done].
    by injection Hj as <-.
Qed.

Lemma shadowed_fresh_rewrite name coll pre c post (f : Customer.t → Customer.t) :
  Customer.Name (f c) = Customer.Name c →
  first_named name coll pre c post →
  shadowed_fresh coll →
  shadowed_fresh (pre ++ f c :: post).
Proof.
  intros Hf Hfirst Hinv i j c1 d Hij Hi Hj Hname.
  pose proof (first_named_lookup _ _ _ _ _ Hfirst) as Hc.
  pose proof Hfirst as (_ & _ & Hn).
  rewrite (first_named_insert _ _ _ _ _ f Hfirst) in Hi, Hj.
  destruct (decide (j = length pre)) as [->|Hj'].
  - exfalso. rewrite list_lookup_insert_ne in Hi by lia.
    rewrite list_lookup_insert_eq in Hj by (by apply lookup_lt_Some in Hc).
    injection Hj as <-.
    pose proof (first_named_least _ _ _ _ _ i c1 Hfirst Hi) as Hle.
    rewrite Hname, Hf in Hle. specialize (Hle Hn). lia.
  - rewrite list_lookup_insert_ne in Hj by done.
    destruct (decide (i = length pre)) as [->|Hi'].
    + rewrite list_lookup_insert_eq in Hi by (by apply lookup_lt_Some in Hc).
      injection Hi as <-. apply (Hinv (length pre) j c d); [done..|].
      by rewrite <- Hf.
    + rewrite list_lookup_insert_ne in Hi by done. by apply (Hinv i j c1 d).
Qed.

Lemma shadowed_fresh_OrderItem customerName itemName db :
  shadowed_fresh (customers db) →
  shadowed_fresh (customers (OrderItem customerName itemName db).1).
Proof.
  intros Hinv. unfold OrderItem.
  destruct (FindOne (by_name itemName) (menu db)); [|done].
  destruct (first_named_or_none customerName (customers db))
    as [Hnone | (pre & c & post & Hfirst)].
  - by rewrite (UpdateOne_none (H:=customer_document) customerName _ _ Hnone).
  - pose proof Hfirst as (Hsplit & Hpre & Hn). rewrite Hsplit at 1.
    rewrite (UpdateOne_first (H:=customer_document) customerName _ pre c post Hpre Hn).
    simpl. by apply (shadowed_fresh_rewrite customerName (customers db)).
Qed.

Lemma shadowed_fresh_CalculateAndStoreTotal customerName db r :
  CalculateAndStoreTotal customerName db r →
  shadowed_fresh (customers db) → shadowed_fresh (customers r.1).
Proof.
  intros (ks & _ & ->) Hinv. destruct db as [coll menuCollection]. simpl in Hinv.
  destruct (first_named_or_none customerName coll)
    as [Hnone | (pre & c & post & Hfirst)].
  - unfold CalculateAndStoreTotal_in. simpl.
    by rewrite (proj2 (FindOne_None (H:=customer_document) customerName coll) Hnone).
  - rewrite (CalculateAndStoreTotal_in_first ks _ _ _ pre c post Hfirst). simpl.
    by apply (shadowed_fresh_rewrite customerName coll pre c post
                (Customer.set_totalAmount _)).
Qed.

(** In every store the program works on, the records that a lookup never
    finds are as [AddCustomer] inserted them. *)
Lemma reachable_shadowed_fresh db :
  reachable db → shadowed_fresh (customers db).
Proof.
  induction 1 as [db Hnodup | db _ IH | name phone db _ IH
                 | customerName itemName db _ IH | customerName db r _ IH Hr].
  - by apply shadowed_fresh_NoDup.
  - done.
  - by apply shadowed_fresh_InsertOne.
  - by apply shadowed_fresh_OrderItem.
  - by apply (shadowed_fresh_CalculateAndStoreTotal customerName db).
Qed.

(** What an execution for the name of the record at position [i] leaves
    at position [i]. *)
Lemma CalculateAndStoreTotal_record db i C r :
  reachable db → customers db !! i = Some C →
  CalculateAndStoreTotal (Customer.Name C) db r →
  ∃ names,
    distinct_names (Customer.OrderedItems C) names ∧
    menu r.1 = menu db ∧
    customers r.1 !! i =
      Some (Customer.mk (Customer.Name C) (Customer.Phone C)
                        (Customer.OrderedItems C)
                        (order_total (menu db) (Customer.OrderedItems C) names)).
Proof.
  intros Hinv%reachable_shadowed_fresh Hi (ks & Hks & ->).
  destruct db as [coll menuCollection]. simpl in *.
  destruct (customers_FindOne (Customer.Name C) coll C) as [c Hfind];
    [by apply list_elem_of_lookup_2 in Hi | done |].
  specialize (Hks c Hfind). apply key_order_distinct_names in Hks.
  destruct (first_named_FindOne _ _ _ Hfind) as (pre & post & Hfirst).
  pose proof (first_named_lookup _ _ _ _ _ Hfirst) as Hc.
  pose proof (first_named_least _ _ _ _ _ i C Hfirst Hi eq_refl) as Hle.
  rewrite (CalculateAndStoreTotal_in_first ks _ _ _ pre c post Hfirst). simpl.
  rewrite (first_named_insert _ _ _ _ _
             (λ c, Customer.mk (Customer.Name c) (Customer.Phone c)
                     (Customer.OrderedItems c)
                     (sum_range menuCollection (itemCounts (Customer.OrderedItems c)) ks))
             Hfirst).
  destruct (decide (i = length pre)) as [->|Hne].
  - assert (c = C) as -> by congruence.
    exists ks. split_and!; [done | done |].
    rewrite list_lookup_insert_eq by (by apply lookup_lt_Some in Hc).
    by rewrite sum_range_order_total by (intros k; apply Hks).
  - destruct (Hinv (length pre) i c C) as [Hitems Htotal];
      [lia | done | done | by destruct Hfirst as (_ & _ & ->) |].
    exists []. split_and!.
    + rewrite Hitems. split; [constructor | done].
    + done.
    + rewrite list_lookup_insert_ne by done. rewrite Hi.
      destruct C; simpl in *; by subst.
Qed.

(** C1: in a store the program works on, for every customer record [C]
    present (at any position [i]), [CalculateAndStoreTotal] for [C]'s name
    returns, and after every execution the total of [C] is the sum, over
    the distinct names of [C]'s ordered items taken in some order, of the
    price of the name in the menu at that time times its number of
    occurrences in [C]'s ordered items, a name without menu record adding
    nothing; name, phone and ordered items of [C] are as before. *)
Theorem CalculateAndStoreTotal_stores_sum db i C :
  reachable db → customers db !! i = Some C →
  (∃ r, CalculateAndStoreTotal (Customer.Name C) db r) ∧
  ∀ r, CalculateAndStoreTotal (Customer.Name C) db r →
    ∃ names,
      distinct_names (Customer.OrderedItems C) names ∧
      customers r.1 !! i =
        Some (Customer.mk (Customer.Name C) (Customer.Phone C)
                          (Customer.OrderedItems C)
                          (order_total (menu db) (Customer.OrderedItems C) names)).
Proof.
  intros Hdb Hi. split; [apply CalculateAndStoreTotal_total|].
  intros r Hr.
  destruct (CalculateAndStoreTotal_record db i C r Hdb Hi Hr) as (names & ? & _ & ?).
  by exists names.
Qed.

(** C5: in a store the program works on, for every customer record [C]
    present that has no ordered items, [CalculateAndStoreTotal] for [C]'s
    name returns, and after every execution the stored total of [C] is
    exactly [0]. *)
Theorem CalculateAndStoreTotal_no_orders db i C :
  reachable db → customers db !! i = Some C →
  Customer.OrderedItems C = [] →
  (∃ r, CalculateAndStoreTotal (Customer.Name C) db r) ∧
  ∀ r, CalculateAndStoreTotal (Customer.Name C) db r →
    customers r.1 !! i =
      Some (Customer.mk (Customer.Name C) (Customer.Phone C) [] 0%float).
Proof.
  intros Hdb Hi Hempty. split; [apply CalculateAndStoreTotal_total|].
  intros r Hr.
  destruct (CalculateAndStoreTotal_record db i C r Hdb Hi Hr)
    as (names & [_ Hnames] & _ & ->).
  rewrite Hempty in *. destruct names as [|n names]; [done|].
  exfalso. eapply not_elem_of_nil, Hnames. constructor.
Qed.

Lemma three_orders_key_order ks :
  ks ≡ₚ ["Pizza"; "Burger"; "Pasta"] →
  ∀ customer,
    FindOne (by_name "Ana") (customers three_orders_DB) = Some customer →
    key_order (itemCounts (Customer.OrderedItems customer)) ks.
Proof.
  intros Hks customer Hfind. vm_compute in Hfind. injection Hfind as <-.
  apply key_order_distinct_names. split.
  - rewrite Hks. repeat (constructor; [set_solver|]). constructor.
  - intros n. by rewrite Hks.
Qed.

(** C2, as stated, fails: on the database reached by seeding the menu,
    registering a customer and ordering a pizza, a burger and a pasta, a
    first execution that adds the three amounts in the order pizza,
    burger, pasta and a second one that adds them in the order pizza,
    pasta, burger store totals that differ in the last bit
    (1989.5099999999998 and 1989.51). *)
Lemma CalculateAndStoreTotal_twice_differs :
  ¬ (∀ C, C ∈ customers three_orders_DB →
       ∀ r1 r2,
         CalculateAndStoreTotal (Customer.Name C) three_orders_DB r1 →
         CalculateAndStoreTotal (Customer.Name C) r1.1 r2 →
         r2.1 = r1.1).
Proof.
  intros Hsame.
  specialize (Hsame three_orders_customer ltac:(vm_compute; constructor)
    (CalculateAndStoreTotal_in ["Pizza"; "Burger"; "Pasta"] "Ana" three_orders_DB)
    (CalculateAndStoreTotal_in ["Pizza"; "Pasta"; "Burger"] "Ana"
       (CalculateAndStoreTotal_in ["Pizza"; "Burger"; "Pasta"] "Ana" three_orders_DB).1)).
  simpl in Hsame.
  assert (CalculateAndStoreTotal "Ana" three_orders_DB
            (CalculateAndStoreTotal_in ["Pizza"; "Burger"; "Pasta"] "Ana" three_orders_DB))
    as H1.
  { eexists. split; [|done]. by apply three_orders_key_order. }
  assert (CalculateAndStoreTotal "Ana"
            (CalculateAndStoreTotal_in ["Pizza"; "Burger"; "Pasta"] "Ana" three_orders_DB).1
            (CalculateAndStoreTotal_in ["Pizza"; "Pasta"; "Burger"] "Ana"
              (CalculateAndStoreTotal_in ["Pizza"; "Burger"; "Pasta"] "Ana" three_orders_DB).1))
    as H2.
  { eexists. split; [|done]. intros customer Hfind.
    vm_compute in Hfind. injection Hfind as <-.
    apply key_order_distinct_names. split.
    - repeat (constructor; [set_solver|]). constructor.
    - intros n. set_solver. }
  specialize (Hsame H1 H2). vm_compute in Hsame. discriminate Hsame.
Qed.

(** ** Adding two amounts in either order *)

Lemma SF64add_comm x y : SF64add x y = SF64add y x.
Proof.
  unfold SF64add, SFadd.
  destruct x as [sx|sx| |sx mx ex], y as [sy|sy| |sy my ey];
    try destruct sx; try destruct sy; try reflexivity.
  all: cbv zeta; rewrite (Z.min_comm ey ex), Z.add_comm; reflexivity.
Qed.

Lemma SF64add_from_zero_swap x y :
  SF64add (SF64add (S754_zero false) x) y = SF64add (SF64add (S754_zero false) y) x.
Proof.
  destruct x as [sx|sx| |sx mx ex], y as [sy|sy| |sy my ey];
    try destruct sx; try destruct sy; try reflexivity.
  all: change (SF64add (S754_zero false) (S754_finite ?s ?m ?e))
         with (S754_finite s m e).
  all: apply SF64add_comm.
Qed.

(** From a zero total, two amounts add up to the same [float64] in either
    order. *)
Lemma add_from_zero_swap (a b : float) : (0 + a + b = 0 + b + a)%float.
Proof.
  apply Prim2SF_inj. rewrite !add_spec.
  change (Prim2SF 0) with (S754_zero false).
  apply SF64add_from_zero_swap.
Qed.

Lemma distinct_names_Permutation orderedItems names1 names2 :
  distinct_names orderedItems names1 → distinct_names orderedItems names2 →
  names1 ≡ₚ names2.
Proof.
  intros [Hnodup1 Hnames1] [Hnodup2 Hnames2].
  apply NoDup_Permutation; [done | done |].
  intros n. by rewrite Hnames1, Hnames2.
Qed.

(** With at most two distinct names the order of the sum does not
    matter. *)
Lemma order_total_two menuCollection orderedItems names1 names2 :
  distinct_names orderedItems names1 → distinct_names orderedItems names2 →
  (length names1 ≤ 2)%nat →
  order_total menuCollection orderedItems names1 =
  order_total menuCollection orderedItems names2.
Proof.
  intros H1 H2 Hlen.
  pose proof (distinct_names_Permutation _ _ _ H1 H2) as Hperm.
  destruct names1 as [|a [|b [|? ?]]]; simpl in Hlen; [| | |lia].
  - apply Permutation_nil in Hperm. by subst.
  - apply Permutation_length_1_inv in Hperm. by subst.
  - apply Permutation_length_2_inv in Hperm as [-> | ->]; [done|].
    unfold order_total. simpl.
    destruct (price menuCollection a), (price menuCollection b); try done.
    apply add_from_zero_swap.
Qed.

(** C2, amended: for a customer record [C] present in the store, two
    consecutive executions for [C]'s name whose loops add the amounts in
    the same order [ks] store the same total: the second leaves the state
    reached by the first as it is.  Whatever the two orders, both
    executions store in the record that the name designates a sum of the
    same amounts per distinct name, each in its own order, and change
    nothing else; when the ordered items have at most two distinct names
    the two sums are equal and the second execution again leaves the state
    as it is. *)
Theorem CalculateAndStoreTotal_twice db C :
  C ∈ customers db →
  (∀ ks,
     (∀ customer,
         FindOne (by_name (Customer.Name C)) (customers db) = Some customer →
         key_order (itemCounts (Customer.OrderedItems customer)) ks) →
     CalculateAndStoreTotal (Customer.Name C) db
       (CalculateAndStoreTotal_in ks (Customer.Name C) db) ∧
     CalculateAndStoreTotal (Customer.Name C)
       (CalculateAndStoreTotal_in ks (Customer.Name C) db).1
       (CalculateAndStoreTotal_in ks (Customer.Name C)
          (CalculateAndStoreTotal_in ks (Customer.Name C) db).1) ∧
     CalculateAndStoreTotal_in ks (Customer.Name C)
       (CalculateAndStoreTotal_in ks (Customer.Name C) db).1 =
     CalculateAndStoreTotal_in ks (Customer.Name C) db) ∧
  (∀ r1 r2,
     CalculateAndStoreTotal (Customer.Name C) db r1 →
     CalculateAndStoreTotal (Customer.Name C) r1.1 r2 →
     ∃ pre c post names1 names2,
       first_named (Customer.Name C) (customers db) pre c post ∧
       distinct_names (Customer.OrderedItems c) names1 ∧
       distinct_names (Customer.OrderedItems c) names2 ∧
       r1.1 = mkDB (pre ++ Customer.mk (Customer.Name c) (Customer.Phone c)
                             (Customer.OrderedItems c)
                             (order_total (menu db) (Customer.OrderedItems c) names1)
                        :: post)
                   (menu db) ∧
       r2.1 = mkDB (pre ++ Customer.mk (Customer.Name c) (Customer.Phone c)
                             (Customer.OrderedItems c)
                             (order_total (menu db) (Customer.OrderedItems c) names2)
                        :: post)
                   (menu db) ∧
       ((length names1 ≤ 2)%nat → r2 = r1)).
Proof.
  destruct db as [coll menuCollection]. simpl. intros Hin.
  destruct (customers_FindOne (Customer.Name C) coll C Hin eq_refl)
    as [c Hfind].
  destruct (first_named_FindOne _ _ _ Hfind) as (pre & post & Hfirst).
  pose proof Hfirst as (Hsplit & Hpre & Hn).
  assert (∀ t, first_named (Customer.Name C)
                 (pre ++ Customer.mk (Customer.Name c) (Customer.Phone c)
                           (Customer.OrderedItems c) t :: post)
                 pre
                 (Customer.mk (Customer.Name c) (Customer.Phone c)
                    (Customer.OrderedItems c) t)
                 post) as Hfirst'.
  { intros t. by split_and!. }
  split.
  - intros ks Hks.
    rewrite (CalculateAndStoreTotal_in_first ks _ _ _ pre c post Hfirst). simpl.
    rewrite (CalculateAndStoreTotal_in_first ks _ _ _ pre _ post (Hfirst' _)). simpl.
    split_and!; [| |done].
    + exists ks. split; [done|].
      by rewrite (CalculateAndStoreTotal_in_first ks _ _ _ pre c post Hfirst).
    + exists ks. split.
      * simpl. intros customer.
        rewrite (FindOne_first (H:=customer_document) _ pre _ post Hpre) by done.
        intros [= <-]. simpl. by apply Hks.
      * by rewrite (CalculateAndStoreTotal_in_first ks _ _ _ pre _ post (Hfirst' _)).
  - intros r1 r2 Hr1 Hr2.
    destruct Hr1 as (ks1 & Hks1 & ->).
    rewrite (CalculateAndStoreTotal_in_first ks1 _ _ _ pre c post Hfirst) in Hr2 |- *.
    simpl in Hr2.
    destruct Hr2 as (ks2 & Hks2 & ->).
    rewrite (CalculateAndStoreTotal_in_first ks2 _ _ _ pre _ post (Hfirst' _)).
    simpl in *.
    specialize (Hks1 c Hfind).
    specialize (Hks2 _ (FindOne_first (H:=customer_document) _ pre _ post Hpre
                          (proj2 (proj2 (Hfirst' _))))).
    simpl in Hks2.
    apply key_order_distinct_names in Hks1, Hks2.
    exists pre, c, post, ks1, ks2.
    rewrite !sum_range_order_total by (intros k; first [apply Hks1 | apply Hks2]).
    split_and!; [done..|].
    intros Hlen.
    by rewrite (order_total_two menuCollection _ ks1 ks2 Hks1 Hks2 Hlen).
Qed.

Lemma CalculateAndStoreTotal_twice_witness :
  three_orders_customer ∈ customers three_orders_DB ∧
  CalculateAndStoreTotal_in ["Pizza"; "Pasta"; "Burger"] "Ana"
    (CalculateAndStoreTotal_in ["Pizza"; "Pasta"; "Burger"] "Ana" three_orders_DB).1 =
  CalculateAndStoreTotal_in ["Pizza"; "Pasta"; "Burger"] "Ana" three_orders_DB.
Proof.
  assert (three_orders_customer ∈ customers three_orders_DB) as Hin
    by (vm_compute; constructor).
  split; [exact Hin|].
  apply (proj1 (CalculateAndStoreTotal_twice three_orders_DB three_orders_customer Hin)
           ["Pizza"; "Pasta"; "Burger"]).
  apply three_orders_key_order.
  apply (Permutation_skip "Pizza"), Permutation_swap.
Defined.

(** ** The ordering loop *)

Lemma PlaceOrder_cons customerName line input db r :
  PlaceOrder customerName (line :: input) db r ↔
  if is_done line
  then ∃ r', CalculateAndStoreTotal customerName db r' ∧
             r = (r'.1, ShowMenu db ++ Enter_the_name_of_the_item :: r'.2)
  else ∃ r', PlaceOrder customerName input
               (OrderItem customerName (TrimSpace line) db).1 r' ∧
             r = (r'.1, ShowMenu db ++ Enter_the_name_of_the_item ::
                          (OrderItem customerName (TrimSpace line) db).2 ++ r'.2).
Proof.
  split.
  - inversion 1 as [? ? ? r' Hdone Hr' | ? ? ? r' Hdone Hr']; subst;
      rewrite Hdone; by exists r'.
  - destruct (is_done line) eqn:Hdone; intros (r' & Hr' & ->).
    + by apply PlaceOrder_break.
    + by apply PlaceOrder_order.
Qed.

(** When the input ends before a line says "done", the loop has no
    result. *)
Lemma PlaceOrder_needs_done customerName input db r :
  Forall (λ line, is_done line = false) input →
  ¬ PlaceOrder customerName input db r.
Proof.
  intros Hinput Hrun. induction Hrun as [line input db r Hdone _|]; 
    inversion Hinput; subst; [congruence | auto].
Qed.

Example TrimSpace_line :
  TrimSpace (String.append "  Ice Cream " (String.append CR LF)) = "Ice Cream".
Proof. reflexivity. Qed.

Example is_done_any_case :
  is_done (String.append " DoNe  " (String.append CR LF)) = true.
Proof. reflexivity. Qed.

Example is_done_exact : is_done "done it" = false ∧ is_done EmptyString = false.
Proof. split; reflexivity. Qed.

(** *** What [TrimSpace] and the comparison with "done" compute *)

Lemma append_cons c s t : String.append (String c s) t = String c (String.append s t).
Proof. reflexivity. Qed.

Lemma append_nil_l s : String.append EmptyString s = s.
Proof. reflexivity. Qed.

Lemma append_nil_r s : String.append s EmptyString = s.
Proof. induction s as [|c s IH]; [done | by rewrite append_cons, IH]. Qed.

Lemma append_assoc s1 s2 s3 :
  String.append (String.append s1 s2) s3 = String.append s1 (String.append s2 s3).
Proof. induction s1 as [|c s1 IH]; [done | by rewrite !append_cons, IH]. Qed.

Lemma length_append s t :
  String.length (String.append s t) = (String.length s + String.length t)%nat.
Proof. induction s as [|c s IH]; [done|]. rewrite append_cons. simpl. by rewrite IH. Qed.

Lemma is_space_rune_spec s : is_space_rune s = true ↔ s ∈ space_runes.
Proof. unfold is_space_rune. by rewrite bool_decide_eq_true. Qed.

Ltac space_rune_cases H :=
  unfold space_runes in H;
  repeat (apply elem_of_cons in H as [->|H]); [..|by apply elem_of_nil in H].

Lemma TrimLeft_rune e s : e ∈ space_runes → TrimLeft (String.append e s) = TrimLeft s.
Proof. intros He. space_rune_cases He; reflexivity. Qed.

Lemma TrimLeft_white_space ws s :
  white_space ws → TrimLeft (String.append ws s) = TrimLeft s.
Proof.
  induction 1 as [|e ws He _ IH]; [done|].
  by rewrite append_assoc, TrimLeft_rune.
Qed.

Lemma TrimLeft_fixed s : ¬ starts_with_space s → TrimLeft s = s.
Proof.
  intros Hs. destruct s as [|c1 s1]; [done|]. simpl.
  destruct (is_space_rune (String c1 EmptyString)) eqn:H1.
  { destruct Hs. exists (String c1 EmptyString), s1. by rewrite <- is_space_rune_spec. }
  destruct s1 as [|c2 s2]; [done|].
  destruct (is_space_rune (String c1 (String c2 EmptyString))) eqn:H2.
  { destruct Hs. exists (String c1 (String c2 EmptyString)), s2.
    by rewrite <- is_space_rune_spec. }
  destruct s2 as [|c3 s3]; [done|].
  destruct (is_space_rune (String c1 (String c2 (String c3 EmptyString)))) eqn:H3; [|done].
  destruct Hs. exists (String c1 (String c2 (String c3 EmptyString))), s3.
  by rewrite <- is_space_rune_spec.
Qed.

Lemma TrimRight_cons c rest :
  TrimRight (String c rest) =
  if is_space_rune (String c (TrimRight rest)) then EmptyString
  else String c (TrimRight rest).
Proof. reflexivity. Qed.

Lemma TrimRight_rune_only e : e ∈ space_runes → TrimRight e = EmptyString.
Proof. intros He. space_rune_cases He; reflexivity. Qed.

Lemma TrimRight_rune s e : e ∈ space_runes → TrimRight (String.append s e) = TrimRight s.
Proof.
  intros He. induction s as [|c s IH]; [by apply TrimRight_rune_only|].
  by rewrite append_cons, !TrimRight_cons, IH.
Qed.

Lemma TrimRight_white_space s ws :
  white_space ws → TrimRight (String.append s ws) = TrimRight s.
Proof.
  intros Hws. revert s. induction Hws as [|e ws He _ IH]; intros s.
  - by rewrite append_nil_r.
  - by rewrite <- append_assoc, IH, TrimRight_rune.
Qed.

Lemma ends_with_space_cons c s : ends_with_space s → ends_with_space (String c s).
Proof. intros (rest & e & He & ->). by exists (String c rest), e. Qed.

Lemma TrimRight_fixed s : ¬ ends_with_space s → TrimRight s = s.
Proof.
  induction s as [|c s IH]; [done|]. intros Hs.
  rewrite TrimRight_cons, IH by (intros ?; by apply Hs, ends_with_space_cons).
  destruct (is_space_rune (String c s)) eqn:Hc; [|done].
  destruct Hs. exists EmptyString, (String c s). by rewrite <- is_space_rune_spec.
Qed.

Lemma space_rune_shape e :
  e ∈ space_runes →
  ∃ c rest, e = String c rest ∧ is_cont c = false ∧ all_cont rest = true.
Proof. intros He. space_rune_cases He; by eexists _, _. Qed.

Lemma all_cont_app s t : all_cont (String.append s t) = true → all_cont t = true.
Proof.
  induction s as [|c s IH]; [done|]. rewrite append_cons. simpl.
  intros [_ ?]%andb_prop. by apply IH.
Qed.

Lemma append_eq_append a x b y :
  String.append a x = String.append b y →
  (∃ m, a = String.append b m ∧ y = String.append m x) ∨
  (∃ c m, b = String.append a (String c m) ∧ x = String.append (String c m) y).
Proof.
  revert b. induction a as [|ca a IH]; intros b Heq.
  - destruct b as [|cb b].
    + left. by exists EmptyString.
    + right. by exists cb, b.
  - destruct b as [|cb b].
    + left. by exists (String ca a).
    + rewrite !append_cons in Heq. injection Heq as -> Heq.
      destruct (IH b Heq) as [(m & -> & ->) | (c & m & -> & ->)].
      * left. by exists m.
      * right. by exists c, m.
Qed.

Lemma white_space_head c s :
  white_space (String c s) → is_cont c = false.
Proof.
  inversion 1 as [|e ws He Hws Heq].
  destruct (space_rune_shape e He) as (c' & rest & -> & Hc' & _).
  rewrite append_cons in Heq. by injection Heq as <- _.
Qed.

(** No white-space rune begins in a part that is not white space and
    ends in the white space after it: the bytes of a rune after the first
    are continuation bytes, and white space does not begin with one. *)
Lemma no_space_across core ws :
  core ≠ EmptyString → ¬ starts_with_space core → white_space ws →
  ¬ starts_with_space (String.append core ws).
Proof.
  intros Hne Hcore Hws (e & rest & He & Heq).
  apply append_eq_append in Heq as [(m & -> & _) | (c & m & -> & ->)].
  - apply Hcore. by exists e, m.
  - destruct (space_rune_shape _ He) as (c' & erest & Heq & _ & Hcont).
    destruct core as [|c0 core]; [done|].
    rewrite append_cons in Heq. injection Heq as _ <-.
    apply all_cont_app in Hcont. simpl in Hcont. apply andb_prop in Hcont as [Hc _].
    rewrite append_cons in Hws. apply white_space_head in Hws. congruence.
Qed.

(** However a line is cut into white space, a part without white space at
    its ends, and white space, [TrimSpace] returns that part. *)
Lemma TrimSpace_unique ws1 core ws2 :
  white_space ws1 → white_space ws2 → trimmed core →
  TrimSpace (String.append ws1 (String.append core ws2)) = core.
Proof.
  intros Hws1 Hws2 [Hstart Hend]. unfold TrimSpace.
  rewrite TrimLeft_white_space by done.
  destruct (decide (core = EmptyString)) as [->|Hne].
  - change (String.append EmptyString ws2) with ws2.
    rewrite <- (append_nil_r ws2), TrimLeft_white_space by done. done.
  - rewrite TrimLeft_fixed by (by apply no_space_across).
    by rewrite TrimRight_white_space, TrimRight_fixed.
Qed.

Lemma starts_with_space_tests s :
  starts_with_space s →
  match s with
  | String c1 s1 =>
      is_space_rune (String c1 EmptyString) = true ∨
      match s1 with
      | String c2 s2 =>
          is_space_rune (String c1 (String c2 EmptyString)) = true ∨
          match s2 with
          | String c3 _ =>
              is_space_rune (String c1 (String c2 (String c3 EmptyString))) = true
          | EmptyString => False
          end
      | EmptyString => False
      end
  | EmptyString => False
  end.
Proof.
  intros (e & rest & He & ->). space_rune_cases He; vm_compute; tauto.
Qed.

Lemma TrimLeft_spec s :
  (∃ ws, white_space ws ∧ s = String.append ws (TrimLeft s)) ∧
  ¬ starts_with_space (TrimLeft s).
Proof.
  remember (String.length s) as n eqn:Hn.
  revert s Hn. induction n as [n IH] using lt_wf_ind. intros s ->.
  assert (∀ e t, e ∈ space_runes → s = String.append e t →
                 TrimLeft s = TrimLeft t →
                 (∃ ws, white_space ws ∧ s = String.append ws (TrimLeft s)) ∧
                 ¬ starts_with_space (TrimLeft s)) as Hstep.
  { intros e t He -> Htrim.
    destruct (space_rune_shape e He) as (c & erest & -> & _ & _).
    assert (String.length t < String.length (String.append (String c erest) t))%nat
      as Hlt.
    { rewrite length_append. simpl. lia. }
    destruct (IH _ Hlt t eq_refl) as [(ws & Hws & Ht) Hnot].
    rewrite Htrim. split; [|done].
    exists (String.append (String c erest) ws). split; [by constructor|].
    by rewrite append_assoc, <- Ht. }
  assert (TrimLeft s = s → ¬ starts_with_space s →
          (∃ ws, white_space ws ∧ s = String.append ws (TrimLeft s)) ∧
          ¬ starts_with_space (TrimLeft s)) as Hstop.
  { intros -> Hnot. split; [|done]. exists EmptyString. split; [constructor | done]. }
  clear IH.
  destruct s as [|c1 s1]; [apply Hstop; [done | by intros ?%starts_with_space_tests]|].
  destruct (is_space_rune (String c1 EmptyString)) eqn:H1.
  { apply (Hstep (String c1 EmptyString) s1);
      [by apply is_space_rune_spec | done | simpl; by rewrite H1]. }
  destruct s1 as [|c2 s2].
  { apply Hstop; [simpl; by rewrite H1|].
    intros Hs%starts_with_space_tests. rewrite H1 in Hs. by destruct Hs. }
  destruct (is_space_rune (String c1 (String c2 EmptyString))) eqn:H2.
  { apply (Hstep (String c1 (String c2 EmptyString)) s2);
      [by apply is_space_rune_spec | done | simpl; by rewrite H1, H2]. }
  destruct s2 as [|c3 s3].
  { apply Hstop; [simpl; by rewrite H1, H2|].
    intros Hs%starts_with_space_tests. rewrite H1, H2 in Hs. by destruct Hs as [|[|]]. }
  destruct (is_space_rune (String c1 (String c2 (String c3 EmptyString)))) eqn:H3.
  { apply (Hstep (String c1 (String c2 (String c3 EmptyString))) s3);
      [by apply is_space_rune_spec | done | simpl; by rewrite H1, H2, H3]. }
  apply Hstop; [simpl; by rewrite H1, H2, H3|].
  intros Hs%starts_with_space_tests. rewrite H1, H2, H3 in Hs. by destruct Hs as [|[|]].
Qed.

Lemma space_rune_nonempty e : e ∈ space_runes → e ≠ EmptyString.
Proof. intros (c & rest & -> & _)%space_rune_shape. done. Qed.

Lemma TrimRight_spec s :
  (∃ ws, white_space ws ∧ s = String.append (TrimRight s) ws) ∧
  ¬ ends_with_space (TrimRight s).
Proof.
  induction s as [|c s [(ws & Hws & Hs) Hnot]].
  - split; [exists EmptyString; split; [constructor | done]|].
    intros (rest & e & He%space_rune_nonempty & Heq).
    destruct rest; [by rewrite append_nil_l in Heq | by rewrite append_cons in Heq].
  - rewrite TrimRight_cons.
    destruct (is_space_rune (String c (TrimRight s))) eqn:Hc.
    + split.
      * exists (String.append (String c (TrimRight s)) ws).
        split; [constructor; [by apply is_space_rune_spec | done]|].
        by rewrite append_cons, <- Hs.
      * intros (rest & e & He%space_rune_nonempty & Heq).
        destruct rest; [by rewrite append_nil_l in Heq | by rewrite append_cons in Heq].
    + split.
      * exists ws. split; [done|]. by rewrite append_cons, <- Hs.
      * intros (rest & e & He & Heq). destruct rest as [|c' rest].
        -- rewrite append_nil_l in Heq. subst e.
           apply is_space_rune_spec in He. congruence.
        -- rewrite append_cons in Heq. injection Heq as _ Heq.
           apply Hnot. by exists rest, e.
Qed.

(** Every line is white space, what [TrimSpace] returns, and white
    space. *)
Lemma TrimSpace_decompose line :
  ∃ ws1 ws2,
    white_space ws1 ∧ white_space ws2 ∧ trimmed (TrimSpace line) ∧
    line = String.append ws1 (String.append (TrimSpace line) ws2).
Proof.
  destruct (TrimLeft_spec line) as [(ws1 & Hws1 & Hline) Hstart].
  destruct (TrimRight_spec (TrimLeft line)) as [(ws2 & Hws2 & Hleft) Hend].
  exists ws1, ws2. unfold TrimSpace. split_and!; [done | done | | by rewrite <- Hleft].
  split; [|done]. intros (e & rest & He & Heq). apply Hstart.
  exists e, (String.append rest ws2). split; [done|].
  by rewrite <- append_assoc, <- Heq.
Qed.

Ltac toLower_letter c :=
  split;
  [ destruct c as [[] [] [] [] [] [] [] []]; vm_compute; intros H;
    first [discriminate H | by left | by right]
  | by intros [->| ->] ].

Lemma toLower_d c : toLower c = "d"%char ↔ (c = "d" ∨ c = "D")%char.
Proof. toLower_letter c. Qed.
Lemma toLower_o c : toLower c = "o"%char ↔ (c = "o" ∨ c = "O")%char.
Proof. toLower_letter c. Qed.
Lemma toLower_n c : toLower c = "n"%char ↔ (c = "n" ∨ c = "N")%char.
Proof. toLower_letter c. Qed.
Lemma toLower_e c : toLower c = "e"%char ↔ (c = "e" ∨ c = "E")%char.
Proof. toLower_letter c. Qed.

(** The comparison succeeds on the sixteen spellings of "done" only. *)
Lemma ToLower_done s : ToLower s = "done" ↔ done_in_any_case s.
Proof.
  split.
  - destruct s as [|c1 [|c2 [|c3 [|c4 [|c5 s]]]]]; try done.
    simpl. intros [= H1%toLower_d H2%toLower_o H3%toLower_n H4%toLower_e].
    by exists c1, c2, c3, c4.
  - intros (c1 & c2 & c3 & c4 & -> & H1%toLower_d & H2%toLower_o
            & H3%toLower_n & H4%toLower_e).
    simpl. by rewrite H1, H2, H3, H4.
Qed.

Lemma trimmed_fixed s : TrimSpace s = s → trimmed s.
Proof.
  intros Hs. destruct (TrimSpace_decompose s) as (_ & _ & _ & _ & Htrimmed & _).
  by rewrite Hs in Htrimmed.
Qed.

Example TrimSpace_unicode :
  TrimSpace (String.append NBSP (String.append "Pizza" EM_SPACE)) = "Pizza" ∧
  is_done (String.append "done" (String.append NBSP LF)) = true.
Proof. split; reflexivity. Qed.

(** C6: one iteration of the loop on the line [line], for every rest of
    the input.  Every line is some white space, a middle part without
    white space at its ends, and some white space; the white space is
    that of Unicode.  Whenever the line is cut so, the middle part is
    what the iteration works with: when it is the word "done" with each
    letter in either case, the loop ends with [CalculateAndStoreTotal]
    for the session's customer; otherwise the middle part, without the
    white space around it, goes to [OrderItem] and the loop goes on with
    the rest of the input from the database [OrderItem] leaves.  In both
    cases the menu is shown, then the prompt, before anything else. *)
Theorem PlaceOrder_iteration customerName line input db r :
  (∃ ws1 core ws2,
      white_space ws1 ∧ white_space ws2 ∧ trimmed core ∧
      line = String.append ws1 (String.append core ws2)) ∧
  ∀ ws1 core ws2,
    white_space ws1 → white_space ws2 → trimmed core →
    line = String.append ws1 (String.append core ws2) →
    (done_in_any_case core →
     PlaceOrder customerName (line :: input) db r ↔
     ∃ r', CalculateAndStoreTotal customerName db r' ∧
           r = (r'.1, ShowMenu db ++ Enter_the_name_of_the_item :: r'.2)) ∧
    (¬ done_in_any_case core →
     PlaceOrder customerName (line :: input) db r ↔
     ∃ r', PlaceOrder customerName input (OrderItem customerName core db).1 r' ∧
           r = (r'.1, ShowMenu db ++ Enter_the_name_of_the_item ::
                        (OrderItem customerName core db).2 ++ r'.2)).
Proof.
  split.
  { destruct (TrimSpace_decompose line) as (ws1 & ws2 & ? & ? & ? & ?).
    by exists ws1, (TrimSpace line), ws2. }
  intros ws1 core ws2 Hws1 Hws2 Hcore ->.
  rewrite PlaceOrder_cons. unfold is_done.
  rewrite (TrimSpace_unique ws1 core ws2 Hws1 Hws2 Hcore).
  split; intros Hdone.
  - by rewrite bool_decide_eq_true_2 by (by apply ToLower_done).
  - by rewrite bool_decide_eq_false_2 by (by rewrite ToLower_done).
Qed.

Lemma blank_before_white_space : white_space blank_before.
Proof. repeat (constructor; [by apply is_space_rune_spec|]). constructor. Qed.

Lemma blank_after_white_space : white_space blank_after.
Proof. repeat (constructor; [by apply is_space_rune_spec|]). constructor. Qed.

Lemma Ice_Cream_not_done : ¬ done_in_any_case "Ice Cream".
Proof. by intros (c1 & c2 & c3 & c4 & ? & _). Qed.

Lemma PlaceOrder_iteration_witness :
  white_space blank_before ∧ white_space blank_after ∧
  (trimmed "DoNe" ∧ done_in_any_case "DoNe" ∧
   ∀ r, PlaceOrder "Ana"
          [String.append blank_before (String.append "DoNe" blank_after)]
          three_orders_DB r ↔
        ∃ r', CalculateAndStoreTotal "Ana" three_orders_DB r' ∧
              r = (r'.1, ShowMenu three_orders_DB ++
                           Enter_the_name_of_the_item :: r'.2)) ∧
  (trimmed "Ice Cream" ∧ ¬ done_in_any_case "Ice Cream" ∧
   ∀ r, PlaceOrder "Ana"
          [String.append blank_before (String.append "Ice Cream" blank_after);
           String.append "done" LF]
          three_orders_DB r ↔
        ∃ r', PlaceOrder "Ana" [String.append "done" LF]
                (OrderItem "Ana" "Ice Cream" three_orders_DB).1 r' ∧
              r = (r'.1, ShowMenu three_orders_DB ++ Enter_the_name_of_the_item ::
                           (OrderItem "Ana" "Ice Cream" three_orders_DB).2 ++ r'.2)).
Proof.
  assert (trimmed "DoNe") as Hdone by (by apply trimmed_fixed).
  assert (trimmed "Ice Cream") as Hice by (by apply trimmed_fixed).
  assert (done_in_any_case "DoNe") as Hword.
  { exists "D"%char, "o"%char, "N"%char, "e"%char. by split_and!; [|right|left|right|left]. }
  split; [exact blank_before_white_space|]. split; [exact blank_after_white_space|].
  split.
  - split; [exact Hdone|]. split; [exact Hword|]. intros r.
    apply (proj1 (proj2 (PlaceOrder_iteration "Ana"
                           (String.append blank_before (String.append "DoNe" blank_after))
                           [] three_orders_DB r)
                    blank_before "DoNe" blank_after
                    blank_before_white_space blank_after_white_space Hdone eq_refl)
                 Hword).
  - split; [exact Hice|]. split; [exact Ice_Cream_not_done|]. intros r.
    apply (proj2 (proj2 (PlaceOrder_iteration "Ana"
                           (String.append blank_before
                              (String.append "Ice Cream" blank_after))
                           [String.append "done" LF] three_orders_DB r)
                    blank_before "Ice Cream" blank_after
                    blank_before_white_space blank_after_white_space Hice eq_refl)
                 Ice_Cream_not_done).
Defined.

Lemma PlaceOrder_order_inv customerName line input db r :
  is_done line = false →
  PlaceOrder customerName (line :: input) db r →
  ∃ r', PlaceOrder customerName input
          (OrderItem customerName (TrimSpace line) db).1 r' ∧
        r = (r'.1, ShowMenu db ++ Enter_the_name_of_the_item ::
                     (OrderItem customerName (TrimSpace line) db).2 ++ r'.2).
Proof. intros Hline Hrun. apply PlaceOrder_cons in Hrun. by rewrite Hline in Hrun. Qed.

Lemma PlaceOrder_break_inv customerName line input db r :
  is_done line = true →
  PlaceOrder customerName (line :: input) db r →
  ∃ r', CalculateAndStoreTotal customerName db r' ∧
        r = (r'.1, ShowMenu db ++ Enter_the_name_of_the_item :: r'.2).
Proof. intros Hline Hrun. apply PlaceOrder_cons in Hrun. by rewrite Hline in Hrun. Qed.

(** The loop ends as soon as some line of the input says "done". *)
Lemma PlaceOrder_returns customerName input db :
  Exists (λ line, is_done line = true) input →
  ∃ r, PlaceOrder customerName input db r.
Proof.
  intros Hdone. revert db.
  induction input as [|line input IH]; intros db; [by inversion Hdone|].
  destruct (is_done line) eqn:Hline.
  - destruct (CalculateAndStoreTotal_total customerName db) as [r Hr].
    eexists. by apply PlaceOrder_break.
  - inversion Hdone as [? ? Hhere | ? ? Hlater]; subst; [congruence|].
    destruct (IH Hlater (OrderItem customerName (TrimSpace line) db).1) as [r Hr].
    eexists. by apply PlaceOrder_order.
Qed.

(** ** The end-to-end scenario *)

Lemma distinct_names_pair a b names :
  a ≠ b → distinct_names [a; a; b] names → names = [a; b] ∨ names = [b; a].
Proof.
  intros Hab [Hnodup Hnames].
  apply Permutation_length_2_inv, NoDup_Permutation; [|done|].
  - repeat (constructor; [set_solver|]). constructor.
  - intros n. rewrite Hnames. set_solver.
Qed.

Lemma scenario_runs phone r :
  PlaceOrder "Ana" scenario_input
             (AddCustomer "Ana" phone (AddMenuItems empty_DB).1).1 r →
  r.1 = mkDB [Customer.mk "Ana" phone ["Pizza"; "Pizza"; "Burger"]
                          0x1.0d7051eb851ebp+11%float]
             menuItems.
Proof.
  unfold scenario_input. intros H.
  apply PlaceOrder_order_inv in H; [|reflexivity]. destruct H as (r1 & H & ->).
  apply PlaceOrder_order_inv in H; [|reflexivity]. destruct H as (r2 & H & ->).
  apply PlaceOrder_order_inv in H; [|reflexivity]. destruct H as (r3 & H & ->).
  apply PlaceOrder_break_inv in H; [|reflexivity]. destruct H as (r4 & H & ->).
  simpl.
  eapply (CalculateAndStoreTotal_found _ _
            (Customer.mk "Ana" phone ["Pizza"; "Pizza"; "Burger"] 0%float)) in H;
    [|by vm_compute].
  destruct H as (names & pre & post & Hnames & (Hsplit & _ & _) & ->).
  vm_compute in Hsplit.
  destruct pre as [|? [|? ?]]; simplify_eq.
  apply distinct_names_pair in Hnames as [-> | ->]; [| |done];
    by vm_compute.
Qed.

Lemma main_for_inv name phone input db r :
  main_for name phone input db r →
  ∃ r', PlaceOrder name input (AddCustomer name phone (AddMenuItems db).1).1 r' ∧
        r.1 = r'.1.
Proof. inversion 1 as [r' Hr']; subst. by exists r'. Qed.

Lemma scenario_returns phone :
  ∃ r, main_for "Ana" phone scenario_input empty_DB r.
Proof.
  destruct (PlaceOrder_returns "Ana" scenario_input
              (AddCustomer "Ana" phone (AddMenuItems empty_DB).1).1) as [r Hr].
  { unfold scenario_input. do 3 apply Exists_cons_tl. by apply Exists_cons_hd. }
  eexists. by apply main_for_run.
Qed.

(** C8, as stated, fails: in the scenario the stored total is not the
    [float64] value 2155.51. *)
Lemma scenario_total_is_not_2155_51 :
  ¬ (∀ r, main_for "Ana" "5550100" scenario_input empty_DB r →
          customers r.1 =
            [Customer.mk "Ana" "5550100" ["Pizza"; "Pizza"; "Burger"] 2155.51%float]).
Proof.
  intros Hclaim. destruct (scenario_returns "5550100") as [r Hr].
  specialize (Hclaim r Hr).
  apply main_for_inv in Hr as (r' & Hr' & Heq).
  apply scenario_runs in Hr'. rewrite Heq, Hr' in Hclaim. simpl in Hclaim.
  discriminate Hclaim.
Qed.

(** C8, amended: from an empty store, seeding the menu (pizza at 829.17,
    burger at 497.17), registering one customer and entering "Pizza",
    "Pizza", "Burger" and "done" ends, and every execution leaves that
    customer with the ordered items pizza, pizza, burger and with the
    total that the [float64] operations [829.17 * 2 + 497.17] give, which
    is 2155.5099999999998 ([0x1.0d7051eb851ebp+11]), the [float64] just
    below 2155.51. *)
Theorem scenario_total phone :
  (∃ r, main_for "Ana" phone scenario_input empty_DB r) ∧
  (∀ r, main_for "Ana" phone scenario_input empty_DB r →
        customers r.1 =
          [Customer.mk "Ana" phone ["Pizza"; "Pizza"; "Burger"]
                       0x1.0d7051eb851ebp+11%float]) ∧
  (829.17 * float64 2 + 497.17 * float64 1 = 0x1.0d7051eb851ebp+11)%float ∧
  next_up 0x1.0d7051eb851ebp+11%float = 2155.51%float.
Proof.
  split_and!; [apply scenario_returns | | done | done].
  intros r (r' & Hr' & ->)%main_for_inv.
  apply scenario_runs in Hr'. by rewrite Hr'.
Qed.

(** ** Seeding the menu *)

Lemma InsertOne_all {A : Type} (items coll : list A) :
  fold_left (λ collection item, InsertOne item collection) items coll = coll ++ items.
Proof.
  revert coll. induction items as [|item items IH]; intros coll; simpl.
  - by rewrite app_nil_r.
  - unfold InsertOne at 2. by rewrite IH, <- app_assoc.
Qed.

Lemma AddMenuItems_menu db : menu (AddMenuItems db).1 = menu db ++ menuItems.
Proof. exact (InsertOne_all menuItems (menu db)). Qed.

(** Every seeded name occurs once in the seeded list. *)
Lemma menuItems_names_distinct :
  Forall (λ item, length (filter (λ m, MenuItem.Name m = MenuItem.Name item) menuItems) = 1)
         menuItems.
Proof. unfold menuItems. repeat constructor. Qed.

(** C9: [AddMenuItems] appends its ten records whatever the menu holds.
    From every database, running it twice leaves the menu with the seeded
    list appended twice, so that for each seeded name the menu holds two
    more records of that name than before (exactly two copies of each
    entry from an empty menu); the customers are unchanged, and the second
    run does not leave the database the first one reached. *)
Theorem AddMenuItems_twice db :
  menu (AddMenuItems (AddMenuItems db).1).1 = menu db ++ menuItems ++ menuItems ∧
  customers (AddMenuItems (AddMenuItems db).1).1 = customers db ∧
  Forall (λ item,
            length (filter (λ m, MenuItem.Name m = MenuItem.Name item)
                           (menu (AddMenuItems (AddMenuItems db).1).1)) =
            length (filter (λ m, MenuItem.Name m = MenuItem.Name item) (menu db)) + 2)
         menuItems ∧
  (menu db = [] →
   menu (AddMenuItems (AddMenuItems db).1).1 = menuItems ++ menuItems) ∧
  (AddMenuItems (AddMenuItems db).1).1 ≠ (AddMenuItems db).1.
Proof.
  assert (menu (AddMenuItems (AddMenuItems db).1).1 = menu db ++ menuItems ++ menuItems)
    as Hmenu by (by rewrite !AddMenuItems_menu, <- app_assoc).
  split_and!; [done | done | | by intros Hempty; rewrite Hmenu, Hempty |].
  - rewrite Hmenu. eapply Forall_impl; [apply menuItems_names_distinct|].
    intros item Hitem. simpl in Hitem.
    rewrite !filter_app, !length_app, Hitem. lia.
  - intros Heq. apply (f_equal menu) in Heq.
    rewrite Hmenu, AddMenuItems_menu in Heq.
    apply app_inv_head in Heq. apply (f_equal length) in Heq.
    rewrite length_app in Heq. simpl in Heq. lia.
Qed.

(** ** The statements at concrete stores *)

Lemma three_orders_reachable : reachable three_orders_DB.
Proof.
  unfold three_orders_DB. cbv zeta.
  do 3 apply reachable_OrderItem.
  apply reachable_AddCustomer, reachable_AddMenuItems, reachable_unique_names.
  simpl. constructor.
Qed.

Lemma three_orders_menu itemName :
  itemName ∉ MenuItem.Name <$> menuItems →
  Forall (λ m, MenuItem.Name m ≠ itemName) (menu three_orders_DB).
Proof.
  intros Hnot. apply Forall_forall. intros m Hm Hname. apply Hnot.
  rewrite <- Hname. apply list_elem_of_fmap_2. exact Hm.
Qed.

Lemma CalculateAndStoreTotal_stores_sum_witness :
  reachable three_orders_DB ∧
  customers three_orders_DB !! 0%nat = Some three_orders_customer ∧
  (∃ r, CalculateAndStoreTotal "Ana" three_orders_DB r) ∧
  ∀ r, CalculateAndStoreTotal "Ana" three_orders_DB r →
    ∃ names,
      distinct_names ["Pizza"; "Burger"; "Pasta"] names ∧
      customers r.1 !! 0%nat =
        Some (Customer.mk "Ana" "5550100" ["Pizza"; "Burger"; "Pasta"]
                (order_total (menu three_orders_DB) ["Pizza"; "Burger"; "Pasta"] names)).
Proof.
  split; [exact three_orders_reachable|]. split; [reflexivity|].
  apply (CalculateAndStoreTotal_stores_sum three_orders_DB 0 three_orders_customer).
  - exact three_orders_reachable.
  - reflexivity.
Defined.

Lemma CalculateAndStoreTotal_no_orders_witness :
  (reachable no_orders_DB ∧
   customers no_orders_DB !! 0%nat = Some (Customer.mk "Ana" "5550100" [] 7%float) ∧
   (∃ r, CalculateAndStoreTotal "Ana" no_orders_DB r) ∧
   ∀ r, CalculateAndStoreTotal "Ana" no_orders_DB r →
     customers r.1 !! 0%nat = Some (Customer.mk "Ana" "5550100" [] 0%float)) ∧
  (reachable (AddCustomer "Ana" "5550100" (AddMenuItems empty_DB).1).1 ∧
   (∃ r, CalculateAndStoreTotal "Ana"
           (AddCustomer "Ana" "5550100" (AddMenuItems empty_DB).1).1 r) ∧
   ∀ r, CalculateAndStoreTotal "Ana"
          (AddCustomer "Ana" "5550100" (AddMenuItems empty_DB).1).1 r →
     customers r.1 !! 0%nat = Some (Customer.mk "Ana" "5550100" [] 0%float)).
Proof.
  assert (reachable no_orders_DB) as Hdb1.
  { apply reachable_unique_names. simpl. repeat constructor. set_solver. }
  assert (reachable (AddCustomer "Ana" "5550100" (AddMenuItems empty_DB).1).1) as Hdb2.
  { apply reachable_AddCustomer, reachable_AddMenuItems, reachable_unique_names.
    simpl. constructor. }
  split.
  - split; [exact Hdb1|]. split; [reflexivity|].
    apply (CalculateAndStoreTotal_no_orders no_orders_DB 0
             (Customer.mk "Ana" "5550100" [] 7%float) Hdb1); reflexivity.
  - split; [exact Hdb2|].
    apply (CalculateAndStoreTotal_no_orders _ 0
             (Customer.mk "Ana" "5550100" [] 0%float) Hdb2); reflexivity.
Defined.

Lemma OrderItem_unknown_item_witness :
  Forall (λ m, MenuItem.Name m ≠ "Waffles") (menu three_orders_DB) ∧
  OrderItem "Ana" "Waffles" three_orders_DB =
    (three_orders_DB, [Item_not_found_in_menu "Waffles"]).
Proof.
  assert (Forall (λ m, MenuItem.Name m ≠ "Waffles") (menu three_orders_DB)) as Hmenu
    by (apply three_orders_menu; vm_compute; set_solver).
  split; [exact Hmenu|].
  apply (OrderItem_unknown_item "Ana" "Waffles" three_orders_DB Hmenu).
Defined.

Lemma OrderItem_unknown_customer_witness :
  MenuItem.mk "Pizza" 829.17%float ∈ menu three_orders_DB ∧
  Forall (λ c, Customer.Name c ≠ "Bob") (customers three_orders_DB) ∧
  OrderItem "Bob" "Pizza" three_orders_DB =
    (three_orders_DB, [No_customer_found_with_name "Bob"]).
Proof.
  assert (MenuItem.mk "Pizza" 829.17%float ∈ menu three_orders_DB) as Hin
    by (vm_compute; constructor).
  assert (Forall (λ c, Customer.Name c ≠ "Bob") (customers three_orders_DB)) as Hcust
    by (vm_compute; repeat constructor; discriminate).
  split; [exact Hin|]. split; [exact Hcust|].
  apply (OrderItem_unknown_customer "Bob" "Pizza" three_orders_DB
           (MenuItem.mk "Pizza" 829.17%float) Hin eq_refl Hcust).
Defined.

Lemma OrderItem_appends_witness :
  MenuItem.mk "Pizza" 829.17%float ∈ menu three_orders_DB ∧
  three_orders_customer ∈ customers three_orders_DB ∧
  ∃ pre c post,
    first_named "Ana" (customers three_orders_DB) pre c post ∧
    OrderItem "Ana" "Pizza" three_orders_DB =
      (mkDB (pre ++ Customer.mk (Customer.Name c) (Customer.Phone c)
                                (Customer.OrderedItems c ++ ["Pizza"])
                                (Customer.TotalAmount c) :: post)
            (menu three_orders_DB),
       [Customer_ordered_item "Ana" "Pizza"]).
Proof.
  assert (MenuItem.mk "Pizza" 829.17%float ∈ menu three_orders_DB) as Hin
    by (vm_compute; constructor).
  assert (three_orders_customer ∈ customers three_orders_DB) as Hcin
    by (vm_compute; constructor).
  split; [exact Hin|]. split; [exact Hcin|].
  apply (OrderItem_appends "Ana" "Pizza" three_orders_DB
           (MenuItem.mk "Pizza" 829.17%float) three_orders_customer
           Hin eq_refl Hcin eq_refl).
Defined.

Lemma OrderItem_item_checked_first_witness :
  Forall (λ m, MenuItem.Name m ≠ "Waffles") (menu three_orders_DB) ∧
  (OrderItem "Bob" "Waffles" three_orders_DB).2 = [Item_not_found_in_menu "Waffles"].
Proof.
  assert (Forall (λ m, MenuItem.Name m ≠ "Waffles") (menu three_orders_DB)) as Hmenu
    by (apply three_orders_menu; vm_compute; set_solver).
  split; [exact Hmenu|].
  apply (proj1 (OrderItem_item_checked_first "Bob" "Waffles" three_orders_DB Hmenu)).
Defined.

(** * Further properties of the program *)

(** ** Lookups after an insertion *)

Lemma FindOne_app {A : Type} (filter : A → bool) (coll added : list A) :
  FindOne filter (coll ++ added) =
  match FindOne filter coll with
  | Some d => Some d
  | None => FindOne filter added
  end.
Proof.
  unfold FindOne. induction coll as [|d coll IH]; simpl; [done|].
  by destruct (filter d).
Qed.

(** X1: registration never replaces a customer.  After [AddCustomer], a
    lookup by any name finds what it found before, when it found a
    record; the new record is found only under its own name and only when
    no record had that name yet.  The menu is not touched. *)
Theorem AddCustomer_lookup name phone db n :
  FindOne (by_name n) (customers (AddCustomer name phone db).1) =
    match FindOne (by_name n) (customers db) with
    | Some c => Some c
    | None => if decide (name = n)
              then Some (Customer.mk name phone [] 0%float) else None
    end ∧
  menu (AddCustomer name phone db).1 = menu db.
Proof.
  split; [|done]. simpl. unfold InsertOne. rewrite FindOne_app.
  destruct (FindOne (by_name n) (customers db)); [done|].
  unfold FindOne, by_name. simpl. unfold bson_name, customer_document. simpl.
  by case_bool_decide; case_decide.
Qed.

(** X2: seeding changes no lookup of a name the menu already has, and a
    second seeding changes no lookup at all: under every name, the menu
    seeded twice answers as the menu seeded once. *)
Theorem AddMenuItems_lookup db n :
  (is_Some (FindOne (by_name n) (menu db)) →
   FindOne (by_name n) (menu (AddMenuItems db).1) = FindOne (by_name n) (menu db)) ∧
  FindOne (by_name n) (menu (AddMenuItems (AddMenuItems db).1).1) =
  FindOne (by_name n) (menu (AddMenuItems db).1).
Proof.
  rewrite !AddMenuItems_menu, !FindOne_app. split.
  - by intros [m ->].
  - destruct (FindOne (by_name n) (menu db)); [done|].
    by destruct (FindOne (by_name n) menuItems).
Qed.

(** ** The total of an unknown customer *)

Lemma CalculateAndStoreTotal_unknown_customer_aux customerName db r :
  Forall (λ c, Customer.Name c ≠ customerName) (customers db) →
  CalculateAndStoreTotal customerName db r → r = (db, [Customer_not_found]).
Proof.
  intros Hnone%(FindOne_None (H:=customer_document)) (ks & _ & ->).
  unfold CalculateAndStoreTotal_in. by rewrite Hnone.
Qed.

(** X3: when no customer record has the name, [CalculateAndStoreTotal]
    has one outcome: the database as it was and the line "Customer not
    found."; nothing is stored. *)
Theorem CalculateAndStoreTotal_unknown_customer customerName db r :
  Forall (λ c, Customer.Name c ≠ customerName) (customers db) →
  CalculateAndStoreTotal customerName db r ↔ r = (db, [Customer_not_found]).
Proof.
  intros Hnone%(FindOne_None (H:=customer_document)).
  unfold CalculateAndStoreTotal, CalculateAndStoreTotal_in. rewrite Hnone. split.
  - by intros (ks & _ & ->).
  - intros ->. exists []. split; [by intros ? [=] | done].
Qed.

(** ** Whole sessions *)

Lemma first_named_rewritten name pre post (c' : Customer.t) :
  Forall (λ d, Customer.Name d ≠ name) pre → Customer.Name c' = name →
  first_named name (pre ++ c' :: post) pre c' post.
Proof. by intros; split_and!. Qed.

Lemma OrderItem_first customerName itemName coll menuCollection pre c post :
  first_named customerName coll pre c post →
  OrderItem customerName itemName (mkDB coll menuCollection) =
    match FindOne (by_name itemName) menuCollection with
    | None => (mkDB coll menuCollection, [Item_not_found_in_menu itemName])
    | Some _ =>
        (mkDB (pre ++ Customer.push_orderedItems itemName c :: post) menuCollection,
         [Customer_ordered_item customerName itemName])
    end.
Proof.
  intros (-> & Hpre & Hn). unfold OrderItem. simpl.
  destruct (FindOne (by_name itemName) menuCollection); [|done].
  by rewrite (UpdateOne_first (H:=customer_document) customerName _ pre c post Hpre Hn).
Qed.

Lemma OrderItem_none customerName itemName coll menuCollection :
  Forall (λ c, Customer.Name c ≠ customerName) coll →
  OrderItem customerName itemName (mkDB coll menuCollection) =
    (mkDB coll menuCollection,
     [match FindOne (by_name itemName) menuCollection with
      | None => Item_not_found_in_menu itemName
      | Some _ => No_customer_found_with_name customerName
      end]).
Proof.
  intros Hnone. unfold OrderItem. simpl.
  destruct (FindOne (by_name itemName) menuCollection); [|done].
  by rewrite (UpdateOne_none (H:=customer_document) customerName _ coll Hnone).
Qed.

Lemma PlaceOrder_first customerName input :
  ∀ coll menuCollection pre c post r,
    first_named customerName coll pre c post →
    PlaceOrder customerName input (mkDB coll menuCollection) r →
    ∃ names,
      distinct_names
        (Customer.OrderedItems c ++ accepted_orders menuCollection input) names ∧
      r = (mkDB (pre ++ Customer.mk (Customer.Name c) (Customer.Phone c)
                   (Customer.OrderedItems c ++ accepted_orders menuCollection input)
                   (order_total menuCollection
                      (Customer.OrderedItems c ++ accepted_orders menuCollection input)
                      names)
                 :: post)
                menuCollection,
           session_lines menuCollection customerName true input).
Proof.
  induction input as [|line input IH]; intros coll menuCollection pre c post r Hfirst Hrun.
  { inversion Hrun. }
  apply PlaceOrder_cons in Hrun. simpl. destruct (is_done line).
  - destruct Hrun as (r' & (ks & Hks & ->) & ->).
    pose proof Hfirst as (Hsplit & Hpre & Hn).
    specialize (Hks c). simpl in Hks. rewrite Hsplit in Hks.
    specialize (Hks (FindOne_first (H:=customer_document) _ pre c post Hpre Hn)).
    apply key_order_distinct_names in Hks.
    rewrite (CalculateAndStoreTotal_in_first ks _ _ _ pre c post Hfirst). simpl.
    rewrite sum_range_order_total by (intros k; apply Hks).
    rewrite app_nil_r. by exists ks.
  - destruct Hrun as (r' & Hrun & ->).
    rewrite (OrderItem_first _ _ _ _ pre c post Hfirst) in Hrun |- *.
    pose proof Hfirst as (_ & Hpre & Hn).
    destruct (FindOne (by_name (TrimSpace line)) menuCollection); simpl in *.
    + destruct (IH _ _ pre _ post _
                  (first_named_rewritten customerName pre post
                     (Customer.push_orderedItems (TrimSpace line) c) Hpre Hn)
                  Hrun) as (names & Hnames & Hr').
      rewrite Hr'. simpl in *. rewrite <- app_assoc in Hnames |- *. simpl in *.
      by exists names.
    + destruct (IH _ _ pre c post _ Hfirst Hrun) as (names & Hnames & Hr').
      rewrite Hr'. by exists names.
Qed.

Lemma PlaceOrder_none customerName input :
  ∀ coll menuCollection r,
    Forall (λ c, Customer.Name c ≠ customerName) coll →
    PlaceOrder customerName input (mkDB coll menuCollection) r →
    r = (mkDB coll menuCollection,
         session_lines menuCollection customerName false input).
Proof.
  induction input as [|line input IH]; intros coll menuCollection r Hnone Hrun.
  { inversion Hrun. }
  apply PlaceOrder_cons in Hrun. simpl. destruct (is_done line).
  - destruct Hrun as (r' & Hr' & ->).
    by rewrite (CalculateAndStoreTotal_unknown_customer_aux
                  customerName (mkDB coll menuCollection) r' Hnone Hr').
  - destruct Hrun as (r' & Hrun & ->).
    rewrite (OrderItem_none _ _ _ _ Hnone) in Hrun |- *. simpl in *.
    rewrite (IH _ _ _ Hnone Hrun). simpl.
    by destruct (FindOne (by_name (TrimSpace line)) menuCollection).
Qed.

Example accepted_orders_unicode :
  accepted_orders menuItems
    [String.append NBSP (String.append "Pizza" (String.append EM_SPACE LF));
     String.append "Waffles" LF;
     String.append "DONE" (String.append NBSP LF);
     String.append "Burger" LF] = ["Pizza"].
Proof. reflexivity. Qed.

(** X4: the loop of [PlaceOrder] comes to an end exactly when some line
    of the input says "done"; with input that ends before, it has no
    outcome, whatever the database. *)
Theorem PlaceOrder_ends_iff_done customerName input db :
  (∃ r, PlaceOrder customerName input db r) ↔
  Exists (λ line, is_done line = true) input.
Proof.
  split; [|apply PlaceOrder_returns].
  intros [r Hrun].
  destruct (decide (Exists (λ line, is_done line = true) input)) as [|Hnot]; [done|].
  exfalso. apply (PlaceOrder_needs_done customerName input db r); [|done].
  apply not_Exists_Forall in Hnot; [|apply _].
  eapply Forall_impl; [exact Hnot|]. simpl. intros line Hline.
  by destruct (is_done line).
Qed.

(** X5: what is typed after the first "done" is never read: the outcomes
    of the loop on an input are those on the input cut after that line. *)
Theorem PlaceOrder_stops_at_done customerName before line after db r :
  Forall (λ l, is_done l = false) before → is_done line = true →
  PlaceOrder customerName (before ++ line :: after) db r ↔
  PlaceOrder customerName (before ++ [line]) db r.
Proof.
  intros Hbefore Hline. revert db r.
  induction Hbefore as [|l before Hl _ IH]; intros db r; simpl;
    rewrite !PlaceOrder_cons.
  - by rewrite Hline.
  - rewrite Hl. split; intros (r' & Hrun & ->); exists r'; by rewrite IH in *.
Qed.

(** X6: a session for a name that no customer record has changes nothing
    in the database, whatever is typed; it prints the menu and the prompt
    before every line read, one report per line (item not found, or no
    customer found when the item is in the menu) and "Customer not found."
    at the end. *)
Theorem PlaceOrder_unknown_customer customerName input db r :
  Forall (λ c, Customer.Name c ≠ customerName) (customers db) →
  PlaceOrder customerName input db r →
  r = (db, session_lines (menu db) customerName false input).
Proof. destruct db as [coll menuCollection]. apply PlaceOrder_none. Qed.

(** X7: a session for a registered customer.  The record that the name
    designates gets appended, in the order typed, the trimmed lines before
    the first "done" that name a menu record, and then its total set to
    the sum for the ordered items it has then (those it had before the
    session included); its name and phone, the other records and the menu
    are as before.  The lines printed are the menu and the prompt before
    every line read, one report per line and the closing thanks. *)
Theorem PlaceOrder_registered_customer customerName input db pre c post r :
  first_named customerName (customers db) pre c post →
  PlaceOrder customerName input db r →
  ∃ names,
    distinct_names
      (Customer.OrderedItems c ++ accepted_orders (menu db) input) names ∧
    r = (mkDB (pre ++ Customer.mk (Customer.Name c) (Customer.Phone c)
                 (Customer.OrderedItems c ++ accepted_orders (menu db) input)
                 (order_total (menu db)
                    (Customer.OrderedItems c ++ accepted_orders (menu db) input)
                    names)
               :: post)
              (menu db),
         session_lines (menu db) customerName true input).
Proof. destruct db as [coll menuCollection]. apply PlaceOrder_first. Qed.

(** ** Runs of [main] *)

Lemma main_for_start name phone db :
  (AddCustomer name phone (AddMenuItems db).1).1 =
  mkDB (customers db ++ [Customer.mk name phone [] 0%float]) (menu db ++ menuItems).
Proof.
  unfold AddCustomer. cbn [fst]. f_equal. apply AddMenuItems_menu.
Qed.

Lemma main_for_state name phone input db r :
  main_for name phone input db r →
  ∃ r', PlaceOrder name input
          (mkDB (customers db ++ [Customer.mk name phone [] 0%float])
                (menu db ++ menuItems)) r' ∧
        r = (r'.1, Connected_to_MongoDB :: Menu_items_added ::
                     Customer_added name :: Welcome ::
                     r'.2 ++ GetCustomers r'.1).
Proof.
  inversion 1 as [r' Hrun]; subst. rewrite main_for_start in Hrun.
  by exists r'.
Qed.

(** X8: a run of [main] on a store without a customer of its name (a
    first run on an empty store, for one) leaves the menu with the ten
    seeded records appended and the customers with one record appended:
    the registered customer with the items ordered in the session and
    their total.  It prints the line of the connection, the two
    confirmations and the welcome, the lines of the session, and at the
    end one line for every customer record of the store it leaves, in the
    order of the collection. *)
Theorem main_first_run name phone input db r :
  Forall (λ c, Customer.Name c ≠ name) (customers db) →
  main_for name phone input db r →
  ∃ names,
    distinct_names (accepted_orders (menu db ++ menuItems) input) names ∧
    let db' :=
      mkDB (customers db ++
              [Customer.mk name phone
                 (accepted_orders (menu db ++ menuItems) input)
                 (order_total (menu db ++ menuItems)
                    (accepted_orders (menu db ++ menuItems) input) names)])
           (menu db ++ menuItems) in
    r = (db', Connected_to_MongoDB :: Menu_items_added ::
                Customer_added name :: Welcome ::
                session_lines (menu db ++ menuItems) name true input ++
                Total_customers :: map Customer_line (customers db')).
Proof.
  intros Hnone (r' & Hrun & ->)%main_for_state.
  apply (PlaceOrder_first name input _ _ (customers db)
           (Customer.mk name phone [] 0%float) []) in Hrun
    as (names & Hnames & ->); [|by split_and!].
  by exists names.
Qed.

(** X9: a run of [main] on a store that already has a customer of its
    name (a second run, for one) registers a second record of that name
    and never uses it: the items ordered in the session and the total go
    to the earlier record, and the new record stays at the end of the
    collection without items and with total 0, and is listed so. *)
Theorem main_second_run name phone input db pre c post r :
  first_named name (customers db) pre c post →
  main_for name phone input db r →
  ∃ names,
    distinct_names
      (Customer.OrderedItems c ++ accepted_orders (menu db ++ menuItems) input)
      names ∧
    let db' :=
      mkDB (pre ++
            Customer.mk (Customer.Name c) (Customer.Phone c)
              (Customer.OrderedItems c ++
               accepted_orders (menu db ++ menuItems) input)
              (order_total (menu db ++ menuItems)
                 (Customer.OrderedItems c ++
                  accepted_orders (menu db ++ menuItems) input) names)
            :: post ++ [Customer.mk name phone [] 0%float])
           (menu db ++ menuItems) in
    r = (db', Connected_to_MongoDB :: Menu_items_added ::
                Customer_added name :: Welcome ::
                session_lines (menu db ++ menuItems) name true input ++
                Total_customers :: map Customer_line (customers db')).
Proof.
  intros (Hsplit & Hpre & Hn) (r' & Hrun & ->)%main_for_state.
  apply (PlaceOrder_first name input _ _ pre c
           (post ++ [Customer.mk name phone [] 0%float])) in Hrun
    as (names & Hnames & ->).
  - by exists names.
  - split_and!; [|done..]. by rewrite Hsplit, <- app_assoc.
Qed.

(** ** What the operations keep *)

Lemma records_kept_refl coll : records_kept coll coll.
Proof. intros i c Hi. by exists c. Qed.

Lemma records_kept_trans coll1 coll2 coll3 :
  records_kept coll1 coll2 → records_kept coll2 coll3 → records_kept coll1 coll3.
Proof.
  intros H12 H23 i c Hi.
  destruct (H12 i c Hi) as (c2 & Hi2 & Hn2 & Hp2 & Ho2).
  destruct (H23 i c2 Hi2) as (c3 & Hi3 & Hn3 & Hp3 & Ho3).
  exists c3. split_and!; [done | congruence | congruence | by etrans].
Qed.

Lemma records_kept_app coll added : records_kept coll (coll ++ added).
Proof. intros i c Hi. exists c. split_and!; [|done..]. by apply lookup_app_l_Some. Qed.

Lemma records_kept_rewrite pre c c' post :
  Customer.Name c' = Customer.Name c → Customer.Phone c' = Customer.Phone c →
  Customer.OrderedItems c `prefix_of` Customer.OrderedItems c' →
  records_kept (pre ++ c :: post) (pre ++ c' :: post).
Proof.
  intros Hn Hp Ho i d Hi.
  destruct (decide (i = length pre)) as [->|Hne].
  - rewrite list_lookup_middle in Hi by done. injection Hi as <-.
    exists c'. by rewrite list_lookup_middle.
  - exists d. split_and!; [|done..].
    destruct (decide (i < length pre)%nat).
    + rewrite lookup_app_l in Hi |- * by done. done.
    + rewrite lookup_app_r in Hi |- * by lia.
      destruct (i - length pre)%nat as [|k] eqn:Hk; [lia|]. done.
Qed.

Lemma keeps_refl db : keeps db db.
Proof. split; [done | apply records_kept_refl]. Qed.

Lemma keeps_trans db1 db2 db3 : keeps db1 db2 → keeps db2 db3 → keeps db1 db3.
Proof.
  intros [Hm12 Hc12] [Hm23 Hc23].
  split; [by etrans | by eapply records_kept_trans].
Qed.

Lemma keeps_AddMenuItems db : keeps db (AddMenuItems db).1.
Proof.
  split; [|apply records_kept_refl].
  rewrite AddMenuItems_menu. by apply prefix_app_r.
Qed.

Lemma keeps_AddCustomer name phone db : keeps db (AddCustomer name phone db).1.
Proof. split; [done | apply records_kept_app]. Qed.

Lemma keeps_OrderItem customerName itemName db :
  keeps db (OrderItem customerName itemName db).1.
Proof.
  destruct db as [coll menuCollection].
  destruct (first_named_or_none customerName coll)
    as [Hnone | (pre & c & post & Hfirst)].
  - rewrite (OrderItem_none _ _ _ _ Hnone). apply keeps_refl.
  - rewrite (OrderItem_first _ _ _ _ pre c post Hfirst).
    destruct (FindOne (by_name itemName) menuCollection); [|apply keeps_refl].
    destruct Hfirst as (-> & _ & _). split; [done|]. simpl.
    apply records_kept_rewrite; [done | done |]. simpl. by apply prefix_app_r.
Qed.

Lemma keeps_CalculateAndStoreTotal customerName db r :
  CalculateAndStoreTotal customerName db r → keeps db r.1.
Proof.
  destruct db as [coll menuCollection].
  destruct (first_named_or_none customerName coll)
    as [Hnone | (pre & c & post & Hfirst)].
  - intros Hr.
    rewrite (CalculateAndStoreTotal_unknown_customer_aux
               customerName (mkDB coll menuCollection) r Hnone Hr).
    apply keeps_refl.
  - intros (ks & _ & ->).
    rewrite (CalculateAndStoreTotal_in_first ks _ _ _ pre c post Hfirst).
    destruct Hfirst as (-> & _ & _). split; [done|]. simpl.
    by apply records_kept_rewrite.
Qed.

Lemma keeps_PlaceOrder customerName input db r :
  PlaceOrder customerName input db r → keeps db r.1.
Proof.
  induction 1 as [line input db r _ Hr | line input db r _ _ IH]; simpl.
  - by apply (keeps_CalculateAndStoreTotal customerName).
  - eapply keeps_trans; [apply keeps_OrderItem | exact IH].
Qed.

(** X10: nothing is ever removed.  Every operation of the program, every
    session and every run of [main] leaves each menu record and each
    customer record at its place in its collection, the customer with
    the same name and phone and with ordered items that begin with those
    it had: records are only appended, and orders only added at the end. *)
Theorem operations_keep db :
  keeps db (AddMenuItems db).1 ∧
  (∀ name phone, keeps db (AddCustomer name phone db).1) ∧
  (∀ customerName itemName, keeps db (OrderItem customerName itemName db).1) ∧
  (∀ customerName r, CalculateAndStoreTotal customerName db r → keeps db r.1) ∧
  (∀ customerName input r, PlaceOrder customerName input db r → keeps db r.1) ∧
  (∀ name phone input r, main_for name phone input db r → keeps db r.1).
Proof.
  split_and!.
  - apply keeps_AddMenuItems.
  - intros. apply keeps_AddCustomer.
  - intros. apply keeps_OrderItem.
  - intros ? ?. apply keeps_CalculateAndStoreTotal.
  - intros ? ? ?. apply keeps_PlaceOrder.
  - intros name phone input r (r' & Hrun & ->)%main_for_inv.
    eapply keeps_trans; [apply keeps_AddMenuItems|].
    eapply keeps_trans; [apply keeps_AddCustomer|].
    by eapply keeps_PlaceOrder.
Qed.

(** ** Ordered items name menu records *)

Lemma FindOne_menu_elem_of itemName (menuCollection : list MenuItem.t) m :
  FindOne (by_name itemName) menuCollection = Some m →
  m ∈ menuCollection ∧ MenuItem.Name m = itemName.
Proof.
  intros (pre & post & -> & _ & Hn)%(FindOne_Some (H:=menuItem_document)).
  split; [|done]. apply elem_of_app. right. constructor.
Qed.

Lemma accepted_orders_in_menu menuCollection input n :
  n ∈ accepted_orders menuCollection input →
  ∃ m, m ∈ menuCollection ∧ MenuItem.Name m = n.
Proof.
  induction input as [|line input IH]; simpl; [by intros ?%elem_of_nil|].
  destruct (is_done line); [by intros ?%elem_of_nil|].
  destruct (FindOne (by_name (TrimSpace line)) menuCollection) as [m|] eqn:Hfind;
    [|done].
  intros [->|Hn]%elem_of_cons; [|by apply IH].
  exists m. by apply FindOne_menu_elem_of.
Qed.

Lemma orders_in_menu_rewrite pre c c' post menuCollection :
  (∀ n, n ∈ Customer.OrderedItems c' →
        n ∈ Customer.OrderedItems c ∨
        ∃ m, m ∈ menuCollection ∧ MenuItem.Name m = n) →
  orders_in_menu (mkDB (pre ++ c :: post) menuCollection) →
  orders_in_menu (mkDB (pre ++ c' :: post) menuCollection).
Proof.
  intros Hitems Hinv d n Hd Hn. simpl in *.
  apply elem_of_app in Hd as [Hd|Hd].
  - apply (Hinv d n); [|done]. apply elem_of_app. by left.
  - apply elem_of_cons in Hd as [->|Hd].
    + destruct (Hitems n Hn) as [Hold|Hmenu]; [|done].
      apply (Hinv c n); [|done]. apply elem_of_app. right. constructor.
    + apply (Hinv d n); [|done]. apply elem_of_app. right. by constructor.
Qed.

Lemma orders_in_menu_AddMenuItems db :
  orders_in_menu db → orders_in_menu (AddMenuItems db).1.
Proof.
  intros Hinv c n Hc Hn. destruct (Hinv c n Hc Hn) as (m & Hm & Hname).
  exists m. split; [|done]. rewrite AddMenuItems_menu. apply elem_of_app. by left.
Qed.

Lemma orders_in_menu_AddCustomer name phone db :
  orders_in_menu db → orders_in_menu (AddCustomer name phone db).1.
Proof.
  intros Hinv c n Hc Hn. simpl in *. unfold InsertOne in Hc.
  apply elem_of_app in Hc as [Hc|Hc]; [by apply (Hinv c n)|].
  apply list_elem_of_singleton in Hc as ->. simpl in Hn. by apply elem_of_nil in Hn.
Qed.

Lemma orders_in_menu_OrderItem customerName itemName db :
  orders_in_menu db → orders_in_menu (OrderItem customerName itemName db).1.
Proof.
  destruct db as [coll menuCollection]. intros Hinv.
  destruct (first_named_or_none customerName coll)
    as [Hnone | (pre & c & post & Hfirst)].
  - by rewrite (OrderItem_none _ _ _ _ Hnone).
  - rewrite (OrderItem_first _ _ _ _ pre c post Hfirst).
    destruct (FindOne (by_name itemName) menuCollection) as [m|] eqn:Hfind; [|done].
    destruct Hfirst as (-> & _ & _). simpl.
    apply (orders_in_menu_rewrite pre c); [|done]. simpl.
    intros n [Hn|Hn]%elem_of_app; [by left|].
    apply list_elem_of_singleton in Hn as ->. right.
    exists m. by apply FindOne_menu_elem_of.
Qed.

Lemma orders_in_menu_CalculateAndStoreTotal customerName db r :
  CalculateAndStoreTotal customerName db r →
  orders_in_menu db → orders_in_menu r.1.
Proof.
  destruct db as [coll menuCollection]. intros Hr Hinv.
  destruct (first_named_or_none customerName coll)
    as [Hnone | (pre & c & post & Hfirst)].
  - by rewrite (CalculateAndStoreTotal_unknown_customer_aux
                  customerName (mkDB coll menuCollection) r Hnone Hr).
  - destruct Hr as (ks & _ & ->).
    rewrite (CalculateAndStoreTotal_in_first ks _ _ _ pre c post Hfirst).
    destruct Hfirst as (-> & _ & _). simpl.
    apply (orders_in_menu_rewrite pre c); [|done]. simpl. by left.
Qed.

Lemma orders_in_menu_PlaceOrder customerName input db r :
  PlaceOrder customerName input db r →
  orders_in_menu db → orders_in_menu r.1.
Proof.
  induction 1 as [line input db r _ Hr | line input db r _ _ IH]; simpl; intros Hinv.
  - by apply (orders_in_menu_CalculateAndStoreTotal customerName db).
  - by apply IH, orders_in_menu_OrderItem.
Qed.

(** X11: the check of [OrderItem] against the menu keeps the ordered
    items within the menu.  The empty store has the property that every
    ordered item of every customer names a menu record, and every
    operation, session and run of [main] keeps it. *)
Theorem orders_in_menu_invariant :
  orders_in_menu empty_DB ∧
  ∀ db, orders_in_menu db →
    orders_in_menu (AddMenuItems db).1 ∧
    (∀ name phone, orders_in_menu (AddCustomer name phone db).1) ∧
    (∀ customerName itemName,
        orders_in_menu (OrderItem customerName itemName db).1) ∧
    (∀ customerName r,
        CalculateAndStoreTotal customerName db r → orders_in_menu r.1) ∧
    (∀ customerName input r,
        PlaceOrder customerName input db r → orders_in_menu r.1) ∧
    (∀ name phone input r, main_for name phone input db r → orders_in_menu r.1).
Proof.
  split; [by intros c n ?%elem_of_nil|].
  intros db Hinv. split_and!.
  - by apply orders_in_menu_AddMenuItems.
  - intros. by apply orders_in_menu_AddCustomer.
  - intros. by apply orders_in_menu_OrderItem.
  - intros ? ? Hr. by apply (orders_in_menu_CalculateAndStoreTotal _ _ _ Hr).
  - intros ? ? ? Hr. by apply (orders_in_menu_PlaceOrder _ _ _ _ Hr).
  - intros name phone input r (r' & Hrun & ->)%main_for_inv.
    apply (orders_in_menu_PlaceOrder _ _ _ _ Hrun).
    by apply orders_in_menu_AddCustomer, orders_in_menu_AddMenuItems.
Qed.

(** ** Items that the menu does not price *)

Lemma order_total_unpriced menuCollection orderedItems names :
  (∀ n, n ∈ names → FindOne (by_name n) menuCollection = None) →
  order_total menuCollection orderedItems names = 0%float.
Proof.
  intros Hnone. unfold order_total.
  rewrite (fold_left_agree _ (λ acc _, acc)).
  - clear Hnone. generalize 0%float.
    induction names as [|n names IH]; intros acc; simpl; [done | apply IH].
  - intros acc n Hn. unfold price. by rewrite (Hnone n Hn).
Qed.

(** X12: ordered items that the menu does not have count for nothing:
    when none of the ordered items of the customer that the name
    designates is in the menu, every execution of
    [CalculateAndStoreTotal] stores the total [0] and reports no error. *)
Theorem CalculateAndStoreTotal_unpriced customerName db pre c post r :
  first_named customerName (customers db) pre c post →
  Forall (λ n, FindOne (by_name n) (menu db) = None) (Customer.OrderedItems c) →
  CalculateAndStoreTotal customerName db r →
  r = (mkDB (pre ++ Customer.mk (Customer.Name c) (Customer.Phone c)
                      (Customer.OrderedItems c) 0%float :: post)
            (menu db),
       [Thank_you customerName]).
Proof.
  intros Hfirst Hnone Hr. pose proof Hfirst as (Hsplit & Hpre & Hn).
  assert (FindOne (by_name customerName) (customers db) = Some c) as Hfind.
  { rewrite Hsplit. by apply (FindOne_first (H:=customer_document)). }
  destruct Hr as (ks & Hks & ->). specialize (Hks c Hfind).
  apply key_order_distinct_names in Hks as [_ Hks].
  destruct db as [coll menuCollection]. simpl in *.
  rewrite (CalculateAndStoreTotal_in_first ks _ _ _ pre c post Hfirst).
  rewrite sum_range_order_total by (intros k; apply Hks).
  rewrite order_total_unpriced; [done|].
  intros n Hn'%Hks. rewrite Forall_forall in Hnone. by apply Hnone.
Qed.

(** ** Records registered under a name that is taken *)

(** X13: in every store the program works on, a customer record that
    comes after another record of the same name has no ordered items and
    the total 0: lookups and updates by name reach only the first record
    of a name, so a second registration under a name is never used. *)
Theorem later_registration_unused db i j c d :
  reachable db → (i < j)%nat →
  customers db !! i = Some c → customers db !! j = Some d →
  Customer.Name c = Customer.Name d →
  Customer.OrderedItems d = [] ∧ Customer.TotalAmount d = 0%float.
Proof. intros Hdb. by apply reachable_shadowed_fresh. Qed.

(** ** Orders of different customers *)

Lemma UpdateOne_fst_cons {A : Type} (filter : A → bool) (update : A → A) d rest :
  (UpdateOne filter update (d :: rest)).1 =
  if filter d then update d :: rest else d :: (UpdateOne filter update rest).1.
Proof. simpl. destruct (filter d); [done|]. by destruct (UpdateOne filter update rest). Qed.

Lemma by_name_customer n (c : Customer.t) :
  by_name n c = bool_decide (Customer.Name c = n).
Proof. done. Qed.

Lemma UpdateOne_by_name_comm a b (f g : Customer.t → Customer.t) coll :
  a ≠ b →
  (∀ c, Customer.Name (f c) = Customer.Name c) →
  (∀ c, Customer.Name (g c) = Customer.Name c) →
  (UpdateOne (by_name a) f (UpdateOne (by_name b) g coll).1).1 =
  (UpdateOne (by_name b) g (UpdateOne (by_name a) f coll).1).1.
Proof.
  intros Hab Hf Hg.
  induction coll as [|d coll IH]; [done|].
  rewrite (UpdateOne_fst_cons (by_name b) g d coll),
          (UpdateOne_fst_cons (by_name a) f d coll).
  rewrite !by_name_customer.
  destruct (decide (Customer.Name d = a)) as [Ha|Ha],
           (decide (Customer.Name d = b)) as [Hb|Hb]; [congruence|..].
  - rewrite (bool_decide_eq_false_2 (Customer.Name d = b)) by done.
    rewrite (bool_decide_eq_true_2 (Customer.Name d = a)) by done.
    rewrite !UpdateOne_fst_cons, !by_name_customer, Hf.
    rewrite (bool_decide_eq_false_2 (Customer.Name d = b)) by done.
    by rewrite (bool_decide_eq_true_2 (Customer.Name d = a)) by done.
  - rewrite (bool_decide_eq_true_2 (Customer.Name d = b)) by done.
    rewrite (bool_decide_eq_false_2 (Customer.Name d = a)) by done.
    rewrite !UpdateOne_fst_cons, !by_name_customer, Hg.
    rewrite (bool_decide_eq_true_2 (Customer.Name d = b)) by done.
    by rewrite (bool_decide_eq_false_2 (Customer.Name d = a)) by done.
  - rewrite (bool_decide_eq_false_2 (Customer.Name d = b)) by done.
    rewrite (bool_decide_eq_false_2 (Customer.Name d = a)) by done.
    rewrite !UpdateOne_fst_cons, !by_name_customer.
    rewrite (bool_decide_eq_false_2 (Customer.Name d = b)) by done.
    rewrite (bool_decide_eq_false_2 (Customer.Name d = a)) by done.
    by rewrite IH.
Qed.

Lemma OrderItem_customers customerName itemName coll menuCollection :
  (OrderItem customerName itemName (mkDB coll menuCollection)).1 =
  mkDB (match FindOne (by_name itemName) menuCollection with
        | None => coll
        | Some _ =>
            (UpdateOne (by_name customerName)
                       (Customer.push_orderedItems itemName) coll).1
        end)
       menuCollection.
Proof.
  unfold OrderItem. simpl.
  destruct (FindOne (by_name itemName) menuCollection); [|done].
  by destruct (UpdateOne _ _ coll).
Qed.

(** X14: orders of customers with different names do not interfere: the
    two orders leave the same database in either sequence. *)
Theorem OrderItem_comm a i b j db :
  a ≠ b →
  (OrderItem a i (OrderItem b j db).1).1 = (OrderItem b j (OrderItem a i db).1).1.
Proof.
  intros Hab. destruct db as [coll menuCollection].
  rewrite (OrderItem_customers b j), (OrderItem_customers a i).
  rewrite !OrderItem_customers.
  destruct (FindOne (by_name i) menuCollection),
           (FindOne (by_name j) menuCollection); [|done..].
  f_equal. by apply UpdateOne_by_name_comm.
Qed.

(** ** The further statements at concrete stores *)

Lemma main_for_returns name phone input db :
  Exists (λ line, is_done line = true) input →
  ∃ r, main_for name phone input db r.
Proof.
  intros Hdone.
  destruct (PlaceOrder_returns name input
              (AddCustomer name phone (AddMenuItems db).1).1 Hdone) as [r Hr].
  eexists. by apply main_for_run.
Qed.

Lemma scenario_input_done : Exists (λ line, is_done line = true) scenario_input.
Proof. unfold scenario_input. do 3 apply Exists_cons_tl. by apply Exists_cons_hd. Qed.

Lemma three_orders_first_named :
  first_named "Ana" (customers three_orders_DB) [] three_orders_customer [].
Proof. split_and!; [reflexivity | constructor | reflexivity]. Qed.

Lemma three_orders_no_Bob :
  Forall (λ c, Customer.Name c ≠ "Bob") (customers three_orders_DB).
Proof. vm_compute. repeat constructor. discriminate. Qed.

Lemma CalculateAndStoreTotal_unknown_customer_witness :
  Forall (λ c, Customer.Name c ≠ "Bob") (customers three_orders_DB) ∧
  CalculateAndStoreTotal "Bob" three_orders_DB (three_orders_DB, [Customer_not_found]).
Proof.
  split; [exact three_orders_no_Bob|].
  apply (CalculateAndStoreTotal_unknown_customer "Bob" three_orders_DB
           (three_orders_DB, [Customer_not_found]) three_orders_no_Bob).
  reflexivity.
Defined.

Lemma PlaceOrder_stops_at_done_witness :
  Forall (λ l, is_done l = false) [String.append "Salad" LF] ∧
  is_done (String.append "DONE" LF) = true ∧
  ∀ r,
    PlaceOrder "Ana" ([String.append "Salad" LF] ++ String.append "DONE" LF ::
                      [String.append "Pizza" LF]) three_orders_DB r ↔
    PlaceOrder "Ana" ([String.append "Salad" LF] ++ [String.append "DONE" LF])
               three_orders_DB r.
Proof.
  assert (Forall (λ l, is_done l = false) [String.append "Salad" LF]) as Hbefore
    by (repeat constructor).
  split; [exact Hbefore|]. split; [reflexivity|].
  intros r.
  apply (PlaceOrder_stops_at_done "Ana" [String.append "Salad" LF]
           (String.append "DONE" LF) [String.append "Pizza" LF]
           three_orders_DB r Hbefore eq_refl).
Defined.

Lemma PlaceOrder_unknown_customer_witness :
  Forall (λ c, Customer.Name c ≠ "Bob") (customers three_orders_DB) ∧
  ∃ r, PlaceOrder "Bob" scenario_input three_orders_DB r ∧
       r = (three_orders_DB,
            session_lines (menu three_orders_DB) "Bob" false scenario_input).
Proof.
  split; [exact three_orders_no_Bob|].
  destruct (PlaceOrder_returns "Bob" scenario_input three_orders_DB
              scenario_input_done) as [r Hr].
  exists r. split; [exact Hr|].
  apply (PlaceOrder_unknown_customer "Bob" scenario_input three_orders_DB r
           three_orders_no_Bob Hr).
Defined.

Lemma PlaceOrder_registered_customer_witness :
  first_named "Ana" (customers three_orders_DB) [] three_orders_customer [] ∧
  ∃ r names,
    PlaceOrder "Ana" scenario_input three_orders_DB r ∧
    distinct_names ["Pizza"; "Burger"; "Pasta"; "Pizza"; "Pizza"; "Burger"] names ∧
    r = (mkDB [Customer.mk "Ana" "5550100"
                 ["Pizza"; "Burger"; "Pasta"; "Pizza"; "Pizza"; "Burger"]
                 (order_total (menu three_orders_DB)
                    ["Pizza"; "Burger"; "Pasta"; "Pizza"; "Pizza"; "Burger"] names)]
              (menu three_orders_DB),
         session_lines (menu three_orders_DB) "Ana" true scenario_input).
Proof.
  split; [exact three_orders_first_named|].
  destruct (PlaceOrder_returns "Ana" scenario_input three_orders_DB
              scenario_input_done) as [r Hr].
  destruct (PlaceOrder_registered_customer "Ana" scenario_input three_orders_DB
              [] three_orders_customer [] r three_orders_first_named Hr)
    as (names & Hnames & Heq).
  exists r, names. split; [exact Hr|]. split; [exact Hnames | exact Heq].
Defined.

Lemma main_first_run_witness :
  Forall (λ c, Customer.Name c ≠ "Ana") (customers empty_DB) ∧
  ∃ r names,
    main_for "Ana" "5550100" scenario_input empty_DB r ∧
    distinct_names ["Pizza"; "Pizza"; "Burger"] names ∧
    r.1 = mkDB [Customer.mk "Ana" "5550100" ["Pizza"; "Pizza"; "Burger"]
                  (order_total menuItems ["Pizza"; "Pizza"; "Burger"] names)]
               menuItems.
Proof.
  split; [constructor|].
  destruct (main_for_returns "Ana" "5550100" scenario_input empty_DB
              scenario_input_done) as [r Hr].
  destruct (main_first_run "Ana" "5550100" scenario_input empty_DB r
              (Forall_nil_2 _) Hr) as (names & Hnames & Heq).
  exists r, names. split; [exact Hr|]. split; [exact Hnames|].
  by rewrite Heq.
Defined.

Lemma main_second_run_witness :
  first_named "Ana" (customers three_orders_DB) [] three_orders_customer [] ∧
  ∃ r, main_for "Ana" "5550100" scenario_input three_orders_DB r ∧
       last (customers r.1) = Some (Customer.mk "Ana" "5550100" [] 0%float) ∧
       length (customers r.1) = 2%nat.
Proof.
  split; [exact three_orders_first_named|].
  destruct (main_for_returns "Ana" "5550100" scenario_input three_orders_DB
              scenario_input_done) as [r Hr].
  destruct (main_second_run "Ana" "5550100" scenario_input three_orders_DB
              [] three_orders_customer [] r three_orders_first_named Hr)
    as (names & Hnames & Heq).
  exists r. split; [exact Hr|]. by rewrite Heq.
Defined.

Lemma CalculateAndStoreTotal_unpriced_witness :
  first_named "Ana"
    [Customer.mk "Ana" "5550100" ["Waffles"; "Waffles"] 7%float] []
    (Customer.mk "Ana" "5550100" ["Waffles"; "Waffles"] 7%float) [] ∧
  ∃ r, CalculateAndStoreTotal "Ana"
         (mkDB [Customer.mk "Ana" "5550100" ["Waffles"; "Waffles"] 7%float] menuItems)
         r ∧
       r = (mkDB [Customer.mk "Ana" "5550100" ["Waffles"; "Waffles"] 0%float] menuItems,
            [Thank_you "Ana"]).
Proof.
  assert (first_named "Ana"
            [Customer.mk "Ana" "5550100" ["Waffles"; "Waffles"] 7%float] []
            (Customer.mk "Ana" "5550100" ["Waffles"; "Waffles"] 7%float) []) as Hfirst
    by (split_and!; [reflexivity | constructor | reflexivity]).
  split; [exact Hfirst|].
  destruct (CalculateAndStoreTotal_total "Ana"
              (mkDB [Customer.mk "Ana" "5550100" ["Waffles"; "Waffles"] 7%float]
                    menuItems)) as [r Hr].
  exists r. split; [exact Hr|].
  apply (CalculateAndStoreTotal_unpriced "Ana"
           (mkDB [Customer.mk "Ana" "5550100" ["Waffles"; "Waffles"] 7%float] menuItems)
           [] (Customer.mk "Ana" "5550100" ["Waffles"; "Waffles"] 7%float) [] r
           Hfirst); [|exact Hr].
  simpl. repeat constructor.
Defined.

Lemma later_registration_unused_witness :
  reachable (AddCustomer "Ana" "5550199" three_orders_DB).1 ∧
  customers (AddCustomer "Ana" "5550199" three_orders_DB).1 !! 0%nat
    = Some three_orders_customer ∧
  customers (AddCustomer "Ana" "5550199" three_orders_DB).1 !! 1%nat
    = Some (Customer.mk "Ana" "5550199" [] 0%float) ∧
  Customer.OrderedItems (Customer.mk "Ana" "5550199" [] 0%float) = [] ∧
  Customer.TotalAmount (Customer.mk "Ana" "5550199" [] 0%float) = 0%float.
Proof.
  assert (reachable (AddCustomer "Ana" "5550199" three_orders_DB).1) as Hdb
    by (apply reachable_AddCustomer, three_orders_reachable).
  split; [exact Hdb|]. split; [reflexivity|]. split; [reflexivity|].
  apply (later_registration_unused _ 0 1 three_orders_customer
           (Customer.mk "Ana" "5550199" [] 0%float) Hdb);
    [lia | reflexivity | reflexivity | reflexivity].
Defined.

Lemma OrderItem_comm_witness :
  "Ana" ≠ "Bob" ∧
  (OrderItem "Ana" "Salad"
     (OrderItem "Bob" "Fries" (AddCustomer "Bob" "5550101" three_orders_DB).1).1).1 =
  (OrderItem "Bob" "Fries"
     (OrderItem "Ana" "Salad" (AddCustomer "Bob" "5550101" three_orders_DB).1).1).1.
Proof.
  assert ("Ana" ≠ "Bob") as Hne by discriminate.
  split; [exact Hne|].
  apply (OrderItem_comm "Ana" "Salad" "Bob" "Fries" _ Hne).
Defined.
